(** * firecam: the storage-access layer of [firecam/lib/goog_helper.py]

    A shallow embedding of the path codec ([parseGCSPath], [repackGCSPath]),
    of the bounded-retry loops around Google Drive calls ([createFolder],
    [uploadFile], [driveListFilesQueryWithNextToken]), of the paged search
    ([searchFiles], [searchAllFiles]), of the by-name lookups ([downloadFile],
    [getDirForClassCamera]) and of the Cloud Storage listing and recursive
    download ([listBucketEntries], [downloadBucketFile], [downloadBucketDir]).

    Python strings are modelled as [string] (sequences of bytes, the UTF-8
    encoding of the text); Python exceptions as the type [exn]; the remote
    services, the local file system and every observable effect (remote
    calls, sleeps, log records, prints) as an explicit [World] threaded
    through a state-and-exception monad. *)

From Stdlib Require Import ZArith Ascii String List Bool Lia.
From stdpp Require Import base strings gmap list.

Import ListNotations.
Local Open Scope Z_scope.

#[local] Arguments String.append !_ _ : simpl nomatch.

(** ** Python string primitives *)

Definition slash : ascii := "/"%char.
Definition newline : ascii := "010"%char.

(** [s[-1]]; [None] stands for the [IndexError] of the empty string. *)
Fixpoint str_last (s : string) : option ascii :=
  match s with
  | EmptyString => None
  | String c EmptyString => Some c
  | String _ t => str_last t
  end.

(** [s[0:-1]]: everything but the last character ([""] for [""]). *)
Fixpoint drop_last (s : string) : string :=
  match s with
  | EmptyString => EmptyString
  | String _ EmptyString => EmptyString
  | String c t => String c (drop_last t)
  end.

(** [s[-1] == '/'] for a non-empty [s]. *)
Definition ends_with_slash (s : string) : bool :=
  match str_last s with
  | Some c => Ascii.eqb c slash
  | None => false
  end.

(** [s.startswith('/')]. *)
Definition starts_with_slash (s : string) : bool :=
  match s with
  | String c _ => Ascii.eqb c slash
  | EmptyString => false
  end.

(** [s.startswith(p)]. *)
Fixpoint starts_with (p s : string) : bool :=
  match p, s with
  | EmptyString, _ => true
  | String a p', String b s' => Ascii.eqb a b && starts_with p' s'
  | String _ _, EmptyString => false
  end.

(** [s[len(p):]] when [s.startswith(p)]. *)
Fixpoint strip_prefix (p s : string) : option string :=
  match p, s with
  | EmptyString, _ => Some s
  | String a p', String b s' =>
      if Ascii.eqb a b then strip_prefix p' s' else None
  | String _ _, EmptyString => None
  end.

(** The longest prefix of [s] whose characters all satisfy [f], and the rest. *)
Fixpoint span (f : ascii -> bool) (s : string) : string * string :=
  match s with
  | EmptyString => (EmptyString, EmptyString)
  | String c t =>
      if f c then let '(a, b) := span f t in (String c a, b)
      else (EmptyString, s)
  end.

Fixpoint str_forallb (f : ascii -> bool) (s : string) : bool :=
  match s with
  | EmptyString => true
  | String c t => f c && str_forallb f t
  end.

(** [s.split('/')[-1]]: what follows the last slash (all of [s] without one). *)
Fixpoint last_segment_from (cur s : string) : string :=
  match s with
  | EmptyString => cur
  | String c t =>
      if Ascii.eqb c slash then last_segment_from t t
      else last_segment_from cur t
  end.

Definition last_segment (s : string) : string := last_segment_from s s.

(** Truth value of a Python [str]: non-empty. *)
Definition str_truthy (s : string) : bool :=
  match s with EmptyString => false | _ => true end.

(** Truth value of an optional [str] ([None] or a string). *)
Definition opt_truthy (o : option string) : bool :=
  match o with Some s => str_truthy s | None => false end.

(** ** PathCodec: [parseGCSPath] and [repackGCSPath] *)

(** The character class [[a-z0-9_.-]]. *)
Definition is_bucket_char (c : ascii) : bool :=
  let n := N_of_ascii c in
  ((97 <=? n) && (n <=? 122) || (48 <=? n) && (n <=? 57)
   || (n =? 95) || (n =? 46) || (n =? 45))%N.

(** What [.] matches without [re.DOTALL]: every character but the newline. *)
Definition is_dot_char (c : ascii) : bool := negb (Ascii.eqb c newline).

(** Where [$] matches without [re.MULTILINE]: at the end of the string, or
    just before a newline that is the last character of the string. *)
Definition at_dollar (rest : string) : bool :=
  match rest with
  | EmptyString => true
  | String c EmptyString => Ascii.eqb c newline
  | _ => false
  end.

(** [re.findall(GS_URL_REGEXP, path)] for
    [GS_URL_REGEXP = '^gs://([a-z0-9_.-]+)/(.+)$'].  The pattern is anchored
    at the start of the string, so there is at most one match, and the list
    holds the pair of its two groups.  Both [+] are greedy; the first group
    cannot give a character back (the next pattern character is a slash,
    which is outside the class) and neither can the second (after a shorter
    run the next character is not a newline, so [$] fails there); the match,
    when there is one, is therefore the one of the longest runs. *)
Definition re_findall_GS_URL (path : string) : list (string * string) :=
  match strip_prefix "gs://" path with
  | None => []
  | Some r1 =>
      let '(bucket, r2) := span is_bucket_char r1 in
      match bucket, r2 with
      | String _ _, String c r3 =>
          if Ascii.eqb c slash then
            let '(name, r4) := span is_dot_char r3 in
            match name with
            | String _ _ => if at_dollar r4 then [(bucket, name)] else []
            | EmptyString => []
            end
          else []
      | _, _ => []
      end
  end.

Record GCSPath := mkGCSPath { bucket : string; name : string }.

(** [parseGCSPath(path)]; [None] is Python's [None]. *)
Definition parseGCSPath (path : string) : option GCSPath :=
  match re_findall_GS_URL path with
  | [(b, n)] =>
      let n' := if ends_with_slash n then drop_last n else n in
      Some {| bucket := b; name := n' |}
  | _ => None
  end.

(** [repackGCSPath(bucketName, fileName)]. *)
Definition repackGCSPath (bucketName fileName : string) : string :=
  "gs://" +:+ bucketName +:+ "/" +:+ fileName.

(** [pathlib.PurePath(p).name] on a POSIX host: the last of the components
    of [p], where empty components and ["."] are dropped ([""] when none
    is left). *)
Fixpoint split_slash_from (cur s : string) : list string :=
  match s with
  | EmptyString => [cur]
  | String c t =>
      if Ascii.eqb c slash then cur :: split_slash_from EmptyString t
      else split_slash_from (cur +:+ String c EmptyString) t
  end.

Definition split_slash (s : string) : list string :=
  split_slash_from EmptyString s.

Definition purepath_name (p : string) : string :=
  List.last
    (List.filter (fun c => negb (String.eqb c "" || String.eqb c "."))
       (split_slash p))
    EmptyString.

(** ** Python exceptions *)

Inductive exn : Type :=
| SystemExit (code : Z)            (* raised by [exit(1)]; not an [Exception] *)
| KeyboardInterrupt                (* not an [Exception] *)
| Exception_ (msg : string)        (* [raise Exception(msg)] *)
| TypeError (msg : string)
| ValueError (msg : string)
| IndexError (msg : string)
| KeyError (key : string)
| AssertionError
| OSError (msg : string)           (* FileNotFoundError, IsADirectoryError, ... *)
| RemoteError (msg : string).      (* HttpError, NotFound, transport errors *)

(** Whether [except Exception] catches the exception. *)
Definition is_Exception (e : exn) : bool :=
  match e with
  | SystemExit _ | KeyboardInterrupt => false
  | _ => true
  end.

Inductive Result (A : Type) : Type :=
| Ok (a : A)
| Raise (e : exn).
Arguments Ok {A} a.
Arguments Raise {A} e.

(** ** The world: remote services, local files, observable effects *)

(** An entry of a Drive listing, as selected by [files(id, name)]. *)
Record DriveItem := mkItem { item_id : string; item_name : string }.

(** The keyword arguments of [service.files().list]. *)
Record ListParam := mkListParam {
  q : string;
  fields : string;
  pageToken : option string;
  supportsTeamDrives : bool;
  includeTeamDriveItems : bool
}.

(** The response dictionary of a listing; [None] is a missing key. *)
Record ListResults := mkListResults {
  files : option (list DriveItem);
  nextPageToken : option string
}.

(** The [body] of [service.files().create]. *)
Record FileMetadata := mkFileMetadata {
  md_name : string;
  md_mimeType : option string;
  md_parents : list string
}.

(** A [MediaFileUpload] object. *)
Record Media := mkMedia { media_filename : string; media_mimetype : string }.

(** The response of a creation requested with [fields='id']. *)
Record FileResource := mkFileResource { fr_id : string }.

(** The Drive service handed to every function as [service]: each remote
    call is a step of the backend, which answers or raises. *)
Record DriveService (S : Type) := mkDriveService {
  files_list : ListParam -> S -> Result ListResults * S;
  files_create : FileMetadata -> option Media -> S -> Result FileResource * S;
  files_get_media : string -> S -> Result string * S
}.
Arguments files_list {S} _ _ _.
Arguments files_create {S} _ _ _ _.
Arguments files_get_media {S} _ _ _.

(** An object of a Cloud Storage bucket. *)
Record Blob := mkBlob { blob_name : string; blob_content : string }.

(** A local file-system entry. *)
Inductive Node : Type :=
| File (content : string)
| Dir.

Inductive LogLevel : Type := WARNING | ERROR.

(** Arguments of log records and of [print]. *)
Inductive PyArg : Type :=
| ArgS (s : string)
| ArgD (n : Z)
| ArgExn (e : exn)
| ArgItems (l : list DriveItem)
| ArgDict (d : gmap string string).

Inductive Event : Type :=
| EvFilesList (param : ListParam)
| EvFilesCreate (body : FileMetadata) (media_body : option Media)
| EvGetMedia (fileID : string)
| EvSleep (seconds : Z)
| EvLog (level : LogLevel) (fmt : string) (args : list PyArg)
| EvPrint (args : list PyArg)
| EvListBlobs (bucketName pfx delimiter : string)
| EvBlobDownload (bucketName fileID localFilePath : string).

Record World (S : Type) := mkWorld {
  drive : S;                          (* state of the Drive backend *)
  gcs : list (string * list Blob);    (* the buckets and their objects *)
  fs : gmap string Node;              (* the local file system *)
  trace : list Event                  (* observable effects, oldest first *)
}.
Arguments mkWorld {S} _ _ _ _.
Arguments drive {S} _.
Arguments gcs {S} _.
Arguments fs {S} _.
Arguments trace {S} _.

(** ** The state-and-exception monad *)

Definition M (S A : Type) : Type := World S -> Result A * World S.

Definition ret {S A} (a : A) : M S A := fun w => (Ok a, w).

Definition raise {S A} (e : exn) : M S A := fun w => (Raise e, w).

Definition bind {S A B} (m : M S A) (k : A -> M S B) : M S B :=
  fun w =>
    match m w with
    | (Ok a, w') => k a w'
    | (Raise e, w') => (Raise e, w')
    end.

Notation "'let*' x ':=' m 'in' k" := (bind m (fun x => k))
  (at level 10, x pattern, m at level 100, k at level 200).
Notation "m ';;' k" := (bind m (fun _ => k))
  (at level 100, k at level 200, right associativity).

(** [try: body  except Exception as e: handler(e)]. *)
Definition try_except {S A} (body : M S A) (handler : exn -> M S A) : M S A :=
  fun w =>
    match body w with
    | (Ok a, w') => (Ok a, w')
    | (Raise e, w') =>
        if is_Exception e then handler e w' else (Raise e, w')
    end.

Definition emit {S} (ev : Event) : M S unit :=
  fun w => (Ok tt, mkWorld (drive w) (gcs w) (fs w) (trace w ++ [ev])).

Definition time_sleep {S} (seconds : Z) : M S unit := emit (EvSleep seconds).

Definition logging_warning {S} (fmt : string) (args : list PyArg) : M S unit :=
  emit (EvLog WARNING fmt args).

Definition logging_error {S} (fmt : string) (args : list PyArg) : M S unit :=
  emit (EvLog ERROR fmt args).

Definition print {S} (args : list PyArg) : M S unit := emit (EvPrint args).

(** A step of the Drive backend, recorded in the trace. *)
Definition drive_call {S A} (ev : Event) (step : S -> Result A * S) : M S A :=
  fun w =>
    let '(r, d') := step (drive w) in
    (r, mkWorld d' (gcs w) (fs w) (trace w ++ [ev])).

(** [service.files().list( **param).execute()]. *)
Definition files_list_execute {S} (service : DriveService S)
    (param : ListParam) : M S ListResults :=
  drive_call (EvFilesList param) (files_list service param).

(** [service.files().create(body=..., media_body=..., ...).execute()]. *)
Definition files_create_execute {S} (service : DriveService S)
    (body : FileMetadata) (media_body : option Media) : M S FileResource :=
  drive_call (EvFilesCreate body media_body) (files_create service body media_body).

(** ** CollaborationStore: Google Drive *)

(** [createFolder]: the loop [while retriesLeft > 0], the counter having
    been decremented at the head of the body. *)
Fixpoint createFolder_loop {S} (service : DriveService S) (folderName : string)
    (file_metadata : FileMetadata) (retriesLeft : nat) : M S (option string) :=
  match retriesLeft with
  | O =>
      logging_error "Too many create folder failures" [] ;;
      ret None
  | Datatypes.S retriesLeft =>
      try_except
        (let* folder := files_create_execute service file_metadata None in
         ret (Some (fr_id folder)))
        (fun e =>
           logging_warning "Error creating folder %s. %d retries left. %s"
             [ArgS folderName; ArgD (Z.of_nat retriesLeft); ArgExn e] ;;
           (if (0 <? Z.of_nat retriesLeft) then time_sleep 5 else ret tt) ;;
           createFolder_loop service folderName file_metadata retriesLeft)
  end.

Definition createFolder {S} (service : DriveService S)
    (parentDirID folderName : string) : M S (option string) :=
  let file_metadata :=
    {| md_name := folderName;
       md_mimeType := Some "application/vnd.google-apps.folder";
       md_parents := [parentDirID] |} in
  createFolder_loop service folderName file_metadata 5%nat.

(** [driveListFilesQueryWithNextToken]: the retry loop. *)
Fixpoint driveListFilesQueryWithNextToken_loop {S} (service : DriveService S)
    (param : ListParam) (retriesLeft : nat)
    : M S (option (list DriveItem * option string)) :=
  match retriesLeft with
  | O =>
      logging_error "Too many list failures" [] ;;
      ret None
  | Datatypes.S retriesLeft =>
      try_except
        (let* results := files_list_execute service param in
         let items := default [] (files results) in
         let nextPageToken := nextPageToken results in
         ret (Some (items, nextPageToken)))
        (fun e =>
           logging_warning "Error listing drive. %d retries left. %s"
             [ArgD (Z.of_nat retriesLeft); ArgExn e] ;;
           (if (0 <? Z.of_nat retriesLeft) then time_sleep 5 else ret tt) ;;
           driveListFilesQueryWithNextToken_loop service param retriesLeft)
  end.

(** [driveListFilesQueryWithNextToken]; the result [None] is the [None]
    returned after the last retry. *)
Definition driveListFilesQueryWithNextToken {S} (service : DriveService S)
    (parentID : string) (customQuery : option string)
    (pageToken : option string)
    : M S (option (list DriveItem * option string)) :=
  let q0 := "'" +:+ parentID +:+ "' in parents and trashed = False" in
  let q1 :=
    match customQuery with
    | Some cq => if str_truthy cq then q0 +:+ " and " +:+ cq else q0
    | None => q0
    end in
  let param :=
    {| q := q1;
       fields := "nextPageToken, files(id, name)";
       pageToken := pageToken;
       supportsTeamDrives := true;
       includeTeamDriveItems := true |} in
  driveListFilesQueryWithNextToken_loop service param 5%nat.

(** [(items, nextPageToken) = v] for [v] a pair or [None]. *)
Definition unpack_pair {S A B} (v : option (A * B)) : M S (A * B) :=
  match v with
  | Some p => ret p
  | None => raise (TypeError "cannot unpack non-iterable NoneType object")
  end.

Definition driveListFilesQuery {S} (service : DriveService S)
    (parentID : string) (customQuery : option string) : M S (list DriveItem) :=
  let* r := driveListFilesQueryWithNextToken service parentID customQuery None in
  let* (items, nextPageToken) := unpack_pair r in
  ret items.

Definition driveListFilesByName {S} (service : DriveService S)
    (parentID : string) (searchName : option string) : M S (list DriveItem) :=
  let customQuery :=
    match searchName with
    | Some n => if str_truthy n then Some ("name = '" +:+ n +:+ "'") else None
    | None => None
    end in
  driveListFilesQuery service parentID customQuery.

(** [' and '.join(constraints)]. *)
Fixpoint join_and (constraints : list string) : string :=
  match constraints with
  | [] => ""
  | [c] => c
  | c :: rest => c +:+ " and " +:+ join_and rest
  end.

(** What [searchFiles] returns: the pair or [None] of the paged query, or
    the bare list of items of the unpaged one. *)
Inductive Listing : Type :=
| Paged (r : option (list DriveItem * option string))
| Unpaged (items : list DriveItem).

Definition searchFiles {S} (service : DriveService S) (parentID : string)
    (minTime maxTime prefix npt : option string) : M S Listing :=
  let c1 :=
    if opt_truthy minTime
    then [" modifiedTime > '" +:+ default "" minTime +:+ "' "] else [] in
  let c2 :=
    if opt_truthy maxTime
    then [" modifiedTime < '" +:+ default "" maxTime +:+ "' "] else [] in
  let c3 :=
    if opt_truthy prefix
    then [" name contains '" +:+ default "" prefix +:+ "' "] else [] in
  let customQuery := join_and (c1 ++ c2 ++ c3) in
  if opt_truthy npt then
    let npt := if decide (npt = Some "init") then None else npt in
    let* r := driveListFilesQueryWithNextToken service parentID (Some customQuery) npt in
    ret (Paged r)
  else
    let* items := driveListFilesQuery service parentID (Some customQuery) in
    ret (Unpaged items).

(** [(items, nextPageToken) = searchFiles(...)].  The unpaged branch is
    never taken from [searchAllFiles], whose token is truthy; a bare list
    unpacks only when it has exactly two elements, and the model raises
    for every list. *)
Definition unpack_listing {S} (v : Listing)
    : M S (list DriveItem * option string) :=
  match v with
  | Paged r => unpack_pair r
  | Unpaged _ => raise (ValueError "not enough values to unpack")
  end.

(** [searchAllFiles]: the loop [while nextPageToken]; [fuel] bounds the
    number of pages fetched, and [None] means that it ran out. *)
Fixpoint searchAllFiles_loop {S} (fuel : nat) (service : DriveService S)
    (parentID : string) (minTime maxTime prefix : option string)
    (allItems : list DriveItem) (nextPageToken : option string)
    (w : World S) : option (Result (list DriveItem) * World S) :=
  if opt_truthy nextPageToken then
    match fuel with
    | O => None
    | Datatypes.S fuel =>
        match (let* v := searchFiles service parentID minTime maxTime prefix
                           nextPageToken in
               unpack_listing v) w with
        | (Ok (items, nextPageToken), w') =>
            searchAllFiles_loop fuel service parentID minTime maxTime prefix
              (allItems ++ items) nextPageToken w'
        | (Raise e, w') => Some (Raise e, w')
        end
    end
  else Some (Ok allItems, w).

Definition searchAllFiles {S} (fuel : nat) (service : DriveService S)
    (parentID : string) (minTime maxTime prefix : option string)
    (w : World S) : option (Result (list DriveItem) * World S) :=
  searchAllFiles_loop fuel service parentID minTime maxTime prefix
    [] (Some "init") w.

Definition is_none {A} (o : option A) : bool :=
  match o with None => true | Some _ => false end.

(** *** The local file system

    Paths are compared as strings, up to trailing slashes; ["."], [".."]
    and doubled slashes inside a path are not normalised. *)

Fixpoint rstrip_slash (s : string) : string :=
  match s with
  | EmptyString => EmptyString
  | String c t =>
      let t' := rstrip_slash t in
      if Ascii.eqb c slash && negb (str_truthy t') then EmptyString
      else String c t'
  end.

Definition fs_key (p : string) : string :=
  let k := rstrip_slash p in
  if starts_with_slash p && negb (str_truthy k) then "/" else k.

(** [os.path.exists(p)]. *)
Definition path_exists (f : gmap string Node) (p : string) : bool :=
  match f !! fs_key p with
  | Some Dir => true
  | Some (File _) => negb (ends_with_slash p)
  | None => false
  end.

(** [os.path.isfile(p)]. *)
Definition path_isfile (f : gmap string Node) (p : string) : bool :=
  match f !! fs_key p with
  | Some (File _) => negb (ends_with_slash p)
  | _ => false
  end.

(** [os.path.join(a, b)]. *)
Definition os_path_join (a b : string) : string :=
  if starts_with_slash b then b
  else if negb (str_truthy a) || ends_with_slash a then a +:+ b
  else a +:+ "/" +:+ b.

(** The part of [p] up to and including its last slash. *)
Definition dir_part (p : string) : string :=
  String.substring 0 (String.length p - String.length (last_segment p)) p.

(** Whether the directory holding [p] exists (the working directory and
    the root always do). *)
Definition parent_is_dir (f : gmap string Node) (p : string) : bool :=
  let d := fs_key (dir_part p) in
  if negb (str_truthy d) || String.eqb d "/" then true
  else match f !! d with Some Dir => true | _ => false end.

(** The proper ancestors of [rest], read after the prefix [seen]. *)
Fixpoint path_ancestors_from (seen rest : string) : list string :=
  match rest with
  | EmptyString => []
  | String c t =>
      (if Ascii.eqb c slash && str_truthy (rstrip_slash seen)
       then [rstrip_slash seen] else [])
      ++ path_ancestors_from (seen +:+ String c EmptyString) t
  end.

Definition path_ancestors (p : string) : list string :=
  path_ancestors_from EmptyString (fs_key p).

Definition set_fs {S} (f : gmap string Node) : M S unit :=
  fun w => (Ok tt, mkWorld (drive w) (gcs w) f (trace w)).

Definition get_fs {S} : M S (gmap string Node) := fun w => (Ok (fs w), w).

(** Create the missing ancestors in turn; a file in the way is an error. *)
Fixpoint make_ancestors (f : gmap string Node) (l : list string)
    : Result (gmap string Node) :=
  match l with
  | [] => Ok f
  | a :: l' =>
      match f !! a with
      | None => make_ancestors (<[a := Dir]> f) l'
      | Some Dir => make_ancestors f l'
      | Some (File _) => Raise (OSError "NotADirectoryError")
      end
  end.

(** [os.makedirs(p)]. *)
Definition os_makedirs {S} (p : string) : M S unit :=
  let* f := get_fs in
  match make_ancestors f (path_ancestors p) with
  | Raise e => raise e
  | Ok f' =>
      if negb (is_none (f' !! fs_key p)) || negb (str_truthy p)
      then raise (OSError "FileExistsError")
      else set_fs (<[fs_key p := Dir]> f')
  end.

(** [with open(p, 'wb') as f: f.write(content)]. *)
Definition write_file {S} (p content : string) : M S unit :=
  let* f := get_fs in
  if negb (str_truthy p) || ends_with_slash p then
    raise (OSError "IsADirectoryError")
  else
    match f !! p with
    | Some Dir => raise (OSError "IsADirectoryError")
    | _ =>
        if parent_is_dir f p then set_fs (<[p := File content]> f)
        else raise (OSError "FileNotFoundError")
    end.

(** *** Downloads and uploads *)

(** [downloadFileByID]: the chunked download of the media into memory
    (one backend step for the whole loop over [next_chunk]), then the copy
    into the local file. *)
Definition downloadFileByID {S} (service : DriveService S)
    (fileID localFilePath : string) : M S unit :=
  let* data := drive_call (EvGetMedia fileID) (files_get_media service fileID) in
  write_file localFilePath data.

(** [l[0]]. *)
Definition index0 {S A} (l : list A) : M S A :=
  match l with
  | x :: _ => ret x
  | [] => raise (IndexError "list index out of range")
  end.

Definition len {A} (l : list A) : Z := Z.of_nat (length l).

Definition downloadFile {S} (service : DriveService S)
    (dirID fileName localFilePath : string) : M S unit :=
  let* files := driveListFilesByName service dirID (Some fileName) in
  (if negb (len files =? 1)
   then print [ArgS "Expected 1 file but found"; ArgD (len files); ArgItems files]
   else ret tt) ;;
  (if len files <? 1 then raise (SystemExit 1) else ret tt) ;;
  let* f0 := index0 files in
  let fileID := item_id f0 in
  let fileName := item_name f0 in
  print [ArgS fileID; ArgS fileName] ;;
  downloadFileByID service fileID localFilePath.

(** [MediaFileUpload(localFilePath, mimetype=...)]: the constructor opens
    the file for reading. *)
Definition MediaFileUpload {S} (localFilePath mimetype : string) : M S Media :=
  let* f := get_fs in
  if path_isfile f localFilePath
  then ret {| media_filename := localFilePath; media_mimetype := mimetype |}
  else raise (OSError "FileNotFoundError").

(** [uploadFile]: the retry loop. *)
Fixpoint uploadFile_loop {S} (service : DriveService S) (localFilePath : string)
    (file_metadata : FileMetadata) (media : Media) (retriesLeft : nat)
    : M S (option FileResource) :=
  match retriesLeft with
  | O =>
      logging_error "Too many upload failures" [] ;;
      ret None
  | Datatypes.S retriesLeft =>
      try_except
        (let* file := files_create_execute service file_metadata (Some media) in
         ret (Some file))
        (fun e =>
           logging_warning "Error uploading image %s. %d retries left. %s"
             [ArgS localFilePath; ArgD (Z.of_nat retriesLeft); ArgExn e] ;;
           (if (0 <? Z.of_nat retriesLeft) then time_sleep 5 else ret tt) ;;
           uploadFile_loop service localFilePath file_metadata media retriesLeft)
  end.

Definition uploadFile {S} (service : DriveService S)
    (dirID localFilePath : string) : M S (option FileResource) :=
  let file_metadata :=
    {| md_name := purepath_name localFilePath;
       md_mimeType := None;
       md_parents := [dirID] |} in
  let* media := MediaFileUpload localFilePath "image/jpeg" in
  uploadFile_loop service localFilePath file_metadata media 5%nat.

(** [d[k]] on a dictionary. *)
Definition dict_get {S} (d : gmap string string) (k : string) : M S string :=
  match d !! k with
  | Some v => ret v
  | None => raise (KeyError k)
  end.

Definition getDirForClassCamera {S} (service : DriveService S)
    (classLocations : gmap string string) (imgClass cameraID : string)
    : M S (string * string) :=
  let* parent := dict_get classLocations imgClass in
  let* dirs := driveListFilesByName service parent (Some cameraID) in
  (if negb (len dirs =? 1) then
     logging_error "Expected 1 directory with name %s, but found %d: %s"
       [ArgS cameraID; ArgD (len dirs); ArgItems dirs] ;;
     logging_error "Searching in dir: %s" [ArgS parent] ;;
     logging_error "ImgClass %s, locations: %s"
       [ArgS imgClass; ArgDict classLocations] ;;
     raise (Exception_ "getDirForClassCam: Directory not found")
   else ret tt) ;;
  let* d0 := index0 dirs in
  let dirID := item_id d0 in
  let dirName := item_name d0 in
  ret (dirID, dirName).

(** ** ObjectStore and TreeSync: Cloud Storage *)

(** The storage client is the [gcs] field of the world: the process-wide
    client of [getStorageClient] is taken as already authenticated. *)
Definition find_bucket (bucketName : string) (g : list (string * list Blob))
    : option (list Blob) :=
  match List.find (fun b => String.eqb (fst b) bucketName) g with
  | Some b => Some (snd b)
  | None => None
  end.

Definition not_slash (c : ascii) : bool := negb (Ascii.eqb c slash).

(** For an object name [pfx ++ rest] listed with the delimiter [/]: the
    grouping prefix, which runs to the first slash of [rest] included, or
    [None] when [rest] has no slash (the object is then an item). *)
Definition group_prefix (pfx rest : string) : option string :=
  let '(seg, r) := span not_slash rest in
  match r with
  | String _ _ => Some (pfx +:+ seg +:+ "/")
  | EmptyString => None
  end.

Definition blob_group (pfx : string) (b : Blob) : option string :=
  match strip_prefix pfx (blob_name b) with
  | Some rest => group_prefix pfx rest
  | None => None
  end.

(** The iterator of [storageClient.list_blobs(bucketName, prefix=pfx,
    delimiter=delimiter)] run to its end: the objects it yields and its
    [prefixes].  The objects come in the order of the bucket; [prefixes]
    is a Python set, whose order is unspecified: the model lists it in
    the order of first occurrence. *)
Definition list_blobs_of (blobs : list Blob) (pfx : string) (delimited : bool)
    : list Blob * list string :=
  let matching := List.filter (fun b => starts_with pfx (blob_name b)) blobs in
  if delimited then
    (List.filter (fun b => is_none (blob_group pfx b)) matching,
     remove_dups (omap (blob_group pfx) matching))
  else (matching, []).

Definition list_blobs {S} (bucketName pfx delimiter : string)
    : M S (list Blob * list string) :=
  emit (EvListBlobs bucketName pfx delimiter) ;;
  fun w =>
    match find_bucket bucketName (gcs w) with
    | Some blobs => (Ok (list_blobs_of blobs pfx (str_truthy delimiter)), w)
    | None => (Raise (RemoteError "NotFound"), w)
    end.

(** [assert c]. *)
Definition py_assert {S} (c : bool) : M S unit :=
  if c then ret tt else raise AssertionError.

Definition listBucketEntries {S} (bucketName pfx : string) (getDirs deep : bool)
    : M S (list string) :=
  (if getDirs then py_assert (negb deep) else ret tt) ;;
  let delimiter := if deep then "" else "/" in
  let* blobs := list_blobs bucketName pfx delimiter in
  if getDirs then ret (List.map drop_last (snd blobs))
  else ret (List.map blob_name (fst blobs)).

(** [blob.download_to_filename(localFilePath)] for the object [fileID] of
    the bucket. *)
Definition blob_download_to_filename {S} (bucketName fileID localFilePath : string)
    : M S unit :=
  emit (EvBlobDownload bucketName fileID localFilePath) ;;
  fun w =>
    match find_bucket bucketName (gcs w) with
    | None => (Raise (RemoteError "NotFound"), w)
    | Some blobs =>
        match List.find (fun b => String.eqb (blob_name b) fileID) blobs with
        | None => (Raise (RemoteError "NotFound"), w)
        | Some b => write_file localFilePath (blob_content b) w
        end
    end.

Definition downloadBucketFile {S} (bucketName fileID localFilePath : string)
    : M S unit :=
  let* f := get_fs in
  if path_isfile f localFilePath then ret tt
  else blob_download_to_filename bucketName fileID localFilePath.

(** A [for] loop whose body may run out of fuel ([None]) or raise. *)
Fixpoint for_each {S A} (body : A -> World S -> option (Result unit * World S))
    (l : list A) (w : World S) : option (Result unit * World S) :=
  match l with
  | [] => Some (Ok tt, w)
  | x :: l' =>
      match body x w with
      | Some (Ok _, w') => for_each body l' w'
      | r => r
      end
  end.

(** A [for] loop over a list. *)
Fixpoint for_loop {S A} (body : A -> M S unit) (l : list A) : M S unit :=
  match l with
  | [] => ret tt
  | x :: l' => body x ;; for_loop body l'
  end.

(** What [downloadBucketDir] does before it recurses: it creates the local
    directory, normalises [dirID], downloads the files of this level, and
    lists the directories of this level. *)
Definition downloadBucketDir_level {S} (bucketName dirID localDirPath : string)
    : M S (list string) :=
  let* f := get_fs in
  (if negb (path_exists f localDirPath) then os_makedirs localDirPath
   else ret tt) ;;
  let* dirID :=
    match str_last dirID with
    | None => raise (IndexError "string index out of range")
    | Some c =>
        ret (if negb (Ascii.eqb c slash) then dirID +:+ "/" else dirID)
    end in
  let* files := listBucketEntries bucketName dirID false false in
  for_loop
    (fun f =>
       let name := last_segment f in
       let localFilePath := os_path_join localDirPath name in
       downloadBucketFile bucketName f localFilePath)
    files ;;
  listBucketEntries bucketName dirID true false.

(** [downloadBucketDir]; [fuel] bounds the depth of the recursion, and
    [None] means that it ran out. *)
Fixpoint downloadBucketDir {S} (fuel : nat)
    (bucketName dirID localDirPath : string) (w : World S)
    : option (Result unit * World S) :=
  match fuel with
  | O => None
  | Datatypes.S fuel =>
      match downloadBucketDir_level bucketName dirID localDirPath w with
      | (Raise e, w') => Some (Raise e, w')
      | (Ok dirs, w') =>
          for_each
            (fun d w =>
               let name := last_segment d in
               let nextPath := os_path_join localDirPath name in
               downloadBucketDir fuel bucketName d nextPath w)
            dirs w'
      end
  end.

(** ** Further operations of [goog_helper.py] *)

(** [parsed['cameraID']] for the result of [img_archive.parseFilename],
    a dictionary or [None]. *)
Definition subscript_cameraID {S} (parsed : option (gmap string string))
    : M S string :=
  match parsed with
  | None => raise (TypeError "'NoneType' object is not subscriptable")
  | Some d => dict_get d "cameraID"
  end.

(** [downloadClassImage]; [img_archive.parseFilename], which is not part
    of the sources at hand, is the parameter [parseFilename]. *)
Definition downloadClassImage {S}
    (parseFilename : string -> option (gmap string string))
    (service : DriveService S) (classLocations : gmap string string)
    (imgClass fileName outputDirectory : string) : M S string :=
  let localFilePath := os_path_join outputDirectory fileName in
  let* f := get_fs in
  if path_isfile f localFilePath then ret localFilePath
  else
    let parsed := parseFilename fileName in
    let* cameraID := subscript_cameraID parsed in
    let* (dirID, dirName) :=
      getDirForClassCamera service classLocations imgClass cameraID in
    downloadFile service dirID fileName localFilePath ;;
    ret localFilePath.

(** [dateSubDir]; the parameter [today] is the text that
    [datetime.datetime.fromtimestamp(time.time()).strftime('%Y-%m-%d')]
    gives at the time of the call. *)
Definition dateSubDir {S} (today : string) (parentPath : string) : M S string :=
  let dateSubdir := today in
  match str_last parentPath with
  | None => raise (IndexError "string index out of range")
  | Some c =>
      if Ascii.eqb c slash then ret (parentPath +:+ dateSubdir)
      else ret (parentPath +:+ "/" +:+ dateSubdir)
  end.

(** The state of [getServiceIdToken]: its dictionary [cached] and the
    identity provider behind [fetch_id_token]. *)
Record TokenCache (T : Type) := mkTokenCache {
  cached : gmap string string;
  idp : T
}.
Arguments mkTokenCache {T} _ _.
Arguments cached {T} _.
Arguments idp {T} _.

(** [getServiceIdToken]; [google.oauth2.id_token.fetch_id_token] is the
    parameter [fetch_id_token], a step of the identity provider. *)
Definition getServiceIdToken {T}
    (fetch_id_token : string -> T -> Result string * T) (audience : string)
    (c : TokenCache T) : Result string * TokenCache T :=
  match cached c !! audience with
  | Some token => (Ok token, c)
  | None =>
      match fetch_id_token audience (idp c) with
      | (Ok token, t') =>
          (Ok token, mkTokenCache (<[audience := token]> (cached c)) t')
      | (Raise e, t') => (Raise e, mkTokenCache (cached c) t')
      end
  end.

(** [with open(p, "r") as fh: fh.read()] (and the read of a file opened
    with ['rb']); contents are kept as text. *)
Definition read_file {S} (p : string) : M S string :=
  let* f := get_fs in
  match f !! fs_key p with
  | Some (File content) =>
      if ends_with_slash p then raise (OSError "NotADirectoryError")
      else ret content
  | Some Dir => raise (OSError "IsADirectoryError")
  | None => raise (OSError "FileNotFoundError")
  end.

(** [readSettingsFile] of [firecam/lib/settings.py]; [os.environ] and
    [json.loads] are the parameters [environ] and [json_loads]. *)
Definition readSettingsFile {S J} (environ : gmap string string)
    (json_loads : string -> Result J) : M S J :=
  let* configPath := dict_get environ "OCT_FIRE_SETTINGS" in
  let parsedPath := parseGCSPath configPath in
  match parsedPath with
  | Some _ => raise (Exception_ "GCS config not supported yet")
  | None =>
      let* text := read_file configPath in
      match json_loads text with
      | Ok config => ret config
      | Raise e => raise e
      end
  end.

Definition set_gcs {S} (g : list (string * list Blob)) : M S unit :=
  fun w => (Ok tt, mkWorld (drive w) g (fs w) (trace w)).

(** The objects of a bucket after an object was written. *)
Definition put_blob (fileID content : string) (blobs : list Blob) : list Blob :=
  List.filter (fun b => negb (String.eqb (blob_name b) fileID)) blobs
  ++ [mkBlob fileID content].

(** The buckets after the objects of [bucketName] were changed by [f]. *)
Definition update_bucket (bucketName : string) (f : list Blob -> list Blob)
    (g : list (string * list Blob)) : list (string * list Blob) :=
  List.map (fun b => if String.eqb (fst b) bucketName then (fst b, f (snd b)) else b) g.


(** [uploadBucketFile]: [blob.upload_from_filename(localFilePath)] opens
    the local file, then writes the object. *)
Definition uploadBucketFile {S} (bucketName fileID localFilePath : string)
    : M S unit :=
  let* content := read_file localFilePath in
  fun w =>
    match find_bucket bucketName (gcs w) with
    | None => (Raise (RemoteError "NotFound"), w)
    | Some _ =>
        set_gcs (update_bucket bucketName (put_blob fileID content) (gcs w)) w
    end.


(** [os.path.isdir(p)]. *)
Definition path_isdir (f : gmap string Node) (p : string) : bool :=
  match f !! fs_key p with
  | Some Dir => true
  | _ => false
  end.

(** [pathlib.Path(p).mkdir(parents=True, exist_ok=True)]. *)
Definition pathlib_mkdir_parents {S} (p : string) : M S unit :=
  let* f := get_fs in
  match make_ancestors f (path_ancestors p) with
  | Raise e => raise e
  | Ok f' =>
      match f' !! fs_key p with
      | Some Dir => set_fs f'
      | Some (File _) => raise (OSError "FileExistsError")
      | None =>
          if str_truthy p then set_fs (<[fs_key p := Dir]> f') else set_fs f'
      end
  end.

(** [shutil.copy(src, dst)]: into [dst] when it is a directory; the same
    file on both sides is an error. *)
Definition shutil_copy {S} (src dst : string) : M S unit :=
  let* f := get_fs in
  let dst := if path_isdir f dst then os_path_join dst (last_segment src) else dst in
  if path_exists f src && path_exists f dst && String.eqb (fs_key src) (fs_key dst)
  then raise (OSError "SameFileError")
  else
    let* content := read_file src in
    write_file dst content.

(** [name[-1] == '/'] for the name of a parsed path. *)
Definition last_is_slash {S} (s : string) : M S bool :=
  match str_last s with
  | None => raise (IndexError "string index out of range")
  | Some c => ret (Ascii.eqb c slash)
  end.

(** [copyFile]. *)
Definition copyFile {S} (srcFilePath destDir : string) : M S string :=
  let parsedPath := parseGCSPath srcFilePath in
  py_assert (is_none parsedPath) ;;
  let parsedPath := parseGCSPath destDir in
  let srcFilePP_name := purepath_name srcFilePath in
  match parsedPath with
  | Some p =>
      let* sl := last_is_slash (name p) in
      let gcsName :=
        if sl then name p +:+ srcFilePP_name
        else name p +:+ "/" +:+ srcFilePP_name in
      uploadBucketFile (bucket p) gcsName srcFilePath ;;
      ret (repackGCSPath (bucket p) gcsName)
  | None =>
      let* f := get_fs in
      (if negb (path_exists f destDir) then pathlib_mkdir_parents destDir
       else ret tt) ;;
      let destPath := os_path_join destDir srcFilePP_name in
      shutil_copy srcFilePath destPath ;;
      ret destPath
  end.

(** ** Notions used to state the properties *)

(** What [span] leaves: nothing, or a string whose head is outside the class. *)
Definition head_fails (f : ascii -> bool) (s : string) : Prop :=
  match s with
  | EmptyString => True
  | String c _ => f c = false
  end.

(** The strings the pattern [^gs://([a-z0-9_.-]+)/(.+)$] matches, with the
    two groups: a declarative reading of the regular expression. *)
Definition GS_URL_match (path b key : string) : Prop :=
  exists tail,
    path = "gs://" +:+ b +:+ "/" +:+ key +:+ tail /\
    b <> "" /\ str_forallb is_bucket_char b = true /\
    key <> "" /\ str_forallb is_dot_char key = true /\
    (tail = "" \/ tail = String newline "").

(** The container of a [RemotePath] matches [[a-z0-9_.-]+]. *)
Definition bucket_ok (b : string) : Prop :=
  b <> "" /\ str_forallb is_bucket_char b = true.

(** The invariant the data model states for a [RemotePath]. *)
Definition RemotePath_invariant (r : GCSPath) : Prop :=
  bucket_ok (bucket r) /\
  starts_with_slash (name r) = false /\
  ends_with_slash (name r) = false.

(** The retry loop that [createFolder], [driveListFilesQueryWithNextToken]
    and [uploadFile] each spell out, with the remote call [step], the
    value [onok] returns on success, and the two log records as
    parameters. *)
Fixpoint RetryGate {S A B} (ev : Event) (step : S -> Result A * S)
    (onok : A -> B) (warn : nat -> exn -> string * list PyArg)
    (err : string) (retriesLeft : nat) : M S (option B) :=
  match retriesLeft with
  | O => logging_error err [] ;; ret None
  | Datatypes.S retriesLeft =>
      try_except
        (let* a := drive_call ev step in ret (Some (onok a)))
        (fun e =>
           logging_warning (fst (warn retriesLeft e)) (snd (warn retriesLeft e)) ;;
           (if (0 <? Z.of_nat retriesLeft) then time_sleep 5 else ret tt) ;;
           RetryGate ev step onok warn err retriesLeft)
  end.

(** The backend state after [n] attempts of [step] from [s], when each of
    them raises an exception that [except Exception] catches. *)
Fixpoint all_fail {S A} (step : S -> Result A * S) (n : nat) (s : S)
    : option S :=
  match n with
  | O => Some s
  | Datatypes.S n =>
      match step s with
      | (Raise e, s') => if is_Exception e then all_fail step n s' else None
      | (Ok _, _) => None
      end
  end.

(** Remote calls and sleeps of a trace. *)
Definition is_remote_call (ev : Event) : bool :=
  match ev with
  | EvFilesList _ | EvFilesCreate _ _ | EvGetMedia _ => true
  | _ => false
  end.

Definition invocations (evs : list Event) : nat :=
  length (List.filter is_remote_call evs).

Definition sleep_of (ev : Event) : option Z :=
  match ev with EvSleep s => Some s | _ => None end.

Definition sleeps (evs : list Event) : list Z := omap sleep_of evs.

Definition total_delay (evs : list Event) : Z := fold_right Z.add 0 (sleeps evs).

Definition is_download (ev : Event) : bool :=
  match ev with EvGetMedia _ => true | _ => false end.

(** A scripted Drive backend for the examples: a listing or a creation
    takes the next answer of its script and raises once the script is
    over; a media download looks the file up. *)
Record Script := mkScript {
  list_script : list (Result ListResults);
  create_script : list (Result FileResource);
  media_store : list (string * string)
}.

Definition scripted : DriveService Script :=
  {| files_list := fun _ s =>
       match list_script s with
       | r :: rest => (r, mkScript rest (create_script s) (media_store s))
       | [] => (Raise (RemoteError "503"), s)
       end;
     files_create := fun _ _ s =>
       match create_script s with
       | r :: rest => (r, mkScript (list_script s) rest (media_store s))
       | [] => (Raise (RemoteError "503"), s)
       end;
     files_get_media := fun fileID s =>
       match List.find (fun p => String.eqb (fst p) fileID) (media_store s) with
       | Some p => (Ok (snd p), s)
       | None => (Raise (RemoteError "404"), s)
       end |}.

(** The creation request that [createFolder] retries. *)
Definition createFolder_request {S} (service : DriveService S)
    (parentDirID folderName : string) : S -> Result FileResource * S :=
  files_create service
    {| md_name := folderName;
       md_mimeType := Some "application/vnd.google-apps.folder";
       md_parents := [parentDirID] |} None.

(** The creation request that [uploadFile] retries. *)
Definition uploadFile_request {S} (service : DriveService S)
    (dirID localFilePath : string) : S -> Result FileResource * S :=
  files_create service
    {| md_name := purepath_name localFilePath;
       md_mimeType := None;
       md_parents := [dirID] |}
    (Some {| media_filename := localFilePath; media_mimetype := "image/jpeg" |}).

(** The fixed delay between two attempts, in seconds. *)
Definition retry_delay : Z := 5.

(** A retry loop gave up: it made five remote calls, slept the fixed
    delay four times, and returned [None]. *)
Definition gave_up {S A} (r : Result (option A) * World S) (w : World S)
    (d' : S) : Prop :=
  exists evs,
    r = (Ok None, mkWorld d' (gcs w) (fs w) (trace w ++ evs)) /\
    invocations evs = 5%nat /\
    sleeps evs = [retry_delay; retry_delay; retry_delay; retry_delay] /\
    total_delay evs = 4 * retry_delay.

(** A retry loop returned [v] from its third remote call, which is the
    last thing it did. *)
Definition third_time_lucky {S A} (r : Result (option A) * World S)
    (w : World S) (d' : S) (v : A) : Prop :=
  exists evs call,
    r = (Ok (Some v), mkWorld d' (gcs w) (fs w) (trace w ++ evs ++ [call])) /\
    is_remote_call call = true /\
    invocations (evs ++ [call]) = 3%nat /\
    sleeps (evs ++ [call]) = [retry_delay; retry_delay].

(** A world for the examples: no bucket, one local image. *)
Definition example_world (s : Script) : World Script :=
  mkWorld s [] {[ "img/cam1.jpg" := File "jpeg" ]} [].

(** The world [w] after the events [evs]. *)
Definition add_events {S} (w : World S) (evs : list Event) : World S :=
  mkWorld (drive w) (gcs w) (fs w) (trace w ++ evs).

(** The media downloads of a trace. *)
Definition downloads (evs : list Event) : list Event :=
  List.filter is_download evs.

(** The message of the [TypeError] raised by unpacking [None]. *)
Definition unpack_None : exn :=
  TypeError "cannot unpack non-iterable NoneType object".

(** Two pages of a listing, and a listing whose second page never comes. *)
Definition page1 : ListResults :=
  mkListResults (Some [mkItem "id-1" "a.jpg"; mkItem "id-2" "b.jpg"]) (Some "t2").

Definition page2 : ListResults :=
  mkListResults (Some [mkItem "id-3" "c.jpg"]) None.

(** The objects of a bucket (none when the bucket does not exist). *)
Definition bucket_blobs (bucketName : string) (g : list (string * list Blob))
    : list Blob :=
  default [] (find_bucket bucketName g).

(** The local paths that a trace fetched objects into. *)
Definition fetch_of (ev : Event) : option string :=
  match ev with
  | EvBlobDownload _ _ localFilePath => Some localFilePath
  | _ => None
  end.

Definition fetches (evs : list Event) : list string := omap fetch_of evs.



(** The remote tree [a/f1], [a/b/f2] of the example. *)
Definition tree_bucket (c1 c2 : string) : list (string * list Blob) :=
  [("bkt", [mkBlob "a/f1" c1; mkBlob "a/b/f2" c2])].

(** [p] is a proper prefix of [d]. *)
Definition strictly_extends (d p : string) : Prop :=
  starts_with p d = true /\ (String.length p < String.length d)%nat.

(** The remote hierarchy is acyclic: every subdirectory that
    [listBucketEntries] lists under a prefix ending in a slash strictly
    extends that prefix. *)
Definition acyclic (blobs : list Blob) : Prop :=
  forall pfx d,
    ends_with_slash pfx = true ->
    In d (List.map drop_last (snd (list_blobs_of blobs pfx true))) ->
    strictly_extends d pfx.

(** Whether a name has two slashes in a row. *)
Fixpoint has_double_slash (s : string) : bool :=
  match s with
  | EmptyString => false
  | String c t =>
      (Ascii.eqb c slash && starts_with_slash t) || has_double_slash t
  end.

(** The length of the longest object name of a bucket. *)
Definition max_name_length (blobs : list Blob) : nat :=
  fold_right Nat.max 0%nat (List.map (fun b => String.length (blob_name b)) blobs).

(** [dirID] as [downloadBucketDir] lists it: with a slash at its end. *)
Definition with_slash (dirID : string) : string :=
  if ends_with_slash dirID then dirID else dirID +:+ "/".

(** What an operation of the object store may do to the world: the Drive
    backend and the buckets stay as they are, local entries are only
    added, and no object is fetched into a path that was a local file
    when the operation started. *)
Definition polite_step {S} (w w' : World S) : Prop :=
  drive w' = drive w /\ gcs w' = gcs w /\ fs w ⊆ fs w' /\
  exists evs,
    trace w' = trace w ++ evs /\
    Forall (fun p => path_isfile (fs w) p = false) (fetches evs).

Definition polite {S A} (m : M S A) : Prop :=
  forall w r w', m w = (r, w') -> polite_step w w'.

(** The listing request that [driveListFilesQueryWithNextToken] retries. *)
Definition list_param (parentID : string) (customQuery pageToken : option string)
    : ListParam :=
  {| q := match customQuery with
          | Some cq =>
              if str_truthy cq
              then ("'" +:+ parentID +:+ "' in parents and trashed = False")
                     +:+ " and " +:+ cq
              else "'" +:+ parentID +:+ "' in parents and trashed = False"
          | None => "'" +:+ parentID +:+ "' in parents and trashed = False"
          end;
     fields := "nextPageToken, files(id, name)";
     pageToken := pageToken;
     supportsTeamDrives := true;
     includeTeamDriveItems := true |}.

(** The query of a search by name. *)
Definition name_query (searchName : option string) : option string :=
  match searchName with
  | Some n => if str_truthy n then Some ("name = '" +:+ n +:+ "'") else None
  | None => None
  end.

(** The query of [searchFiles]. *)
Definition search_query (minTime maxTime pfx : option string) : string :=
  join_and
    ((if opt_truthy minTime
      then [" modifiedTime > '" +:+ default "" minTime +:+ "' "] else [])
     ++ (if opt_truthy maxTime
         then [" modifiedTime < '" +:+ default "" maxTime +:+ "' "] else [])
     ++ (if opt_truthy pfx
         then [" name contains '" +:+ default "" pfx +:+ "' "] else [])).

(** The page token [searchFiles] sends for the token it is given. *)
Definition sent_token (npt : option string) : option string :=
  if decide (npt = Some "init") then None else npt.

(** The items of a page. *)
Definition items_of (r : ListResults) : list DriveItem := default [] (files r).

(** The backend serves the pages [pages] in turn to the requests that
    [searchAllFiles] makes from the token [npt] on, each at the first
    attempt; every page but the last carries a token. *)
Inductive serves {S} (service : DriveService S) (parentID : string)
    (query : string) : option string -> S -> list ListResults -> S -> Prop :=
| serves_last npt s p s' :
    files_list service (list_param parentID (Some query) (sent_token npt)) s
      = (Ok p, s') ->
    opt_truthy (nextPageToken p) = false ->
    serves service parentID query npt s [p] s'
| serves_more npt s p s' rest s'' :
    files_list service (list_param parentID (Some query) (sent_token npt)) s
      = (Ok p, s') ->
    opt_truthy (nextPageToken p) = true ->
    serves service parentID query (nextPageToken p) s' rest s'' ->
    serves service parentID query npt s (p :: rest) s''.

(** The local path that mirrors the path [rel] below the local directory
    [L]: the segments of [rel] are joined to [L] in turn, as the recursion
    of [downloadBucketDir] does. *)
Fixpoint local_path_from (L cur rel : string) : string :=
  match rel with
  | EmptyString => os_path_join L cur
  | String c t =>
      if Ascii.eqb c slash then local_path_from (os_path_join L cur) "" t
      else local_path_from L (cur +:+ String c "") t
  end.

Definition local_path (L rel : string) : string := local_path_from L "" rel.

(** The token cache after calls of [getServiceIdToken] for the audiences
    [l] in turn. *)
Definition after_calls {T} (fetch_id_token : string -> T -> Result string * T)
    (l : list string) (c : TokenCache T) : TokenCache T :=
  fold_left (fun c a => snd (getServiceIdToken fetch_id_token a c)) l c.

(** * Properties *)

(** ** Strings *)

Lemma app_empty_r (s : string) : s +:+ "" = s.
Proof. induction s as [|c s IH]; simpl; [reflexivity | now rewrite IH]. Qed.

Lemma app_assoc_str (a b c : string) : (a +:+ b) +:+ c = a +:+ b +:+ c.
Proof. induction a as [|x a IH]; simpl; [reflexivity | now rewrite IH]. Qed.

Lemma app_length_str (a b : string) :
  String.length (a +:+ b) = (String.length a + String.length b)%nat.
Proof. induction a as [|x a IH]; simpl; [reflexivity | now rewrite IH]. Qed.

Lemma strip_prefix_app (p s : string) : strip_prefix p (p +:+ s) = Some s.
Proof.
  induction p as [|c p IH]; simpl; [reflexivity |].
  now rewrite Ascii.eqb_refl.
Qed.

Lemma strip_prefix_Some (p s r : string) :
  strip_prefix p s = Some r -> s = p +:+ r.
Proof.
  revert s; induction p as [|c p IH]; intros s H; simpl in *.
  - congruence.
  - destruct s as [|d s]; [discriminate |].
    destruct (Ascii.eqb c d) eqn:E; [| discriminate].
    apply Ascii.eqb_eq in E; subst d. now rewrite (IH _ H).
Qed.

Lemma starts_with_strip (p s : string) :
  starts_with p s = true <-> exists r, strip_prefix p s = Some r.
Proof.
  revert s; induction p as [|c p IH]; intros s; simpl.
  - split; eauto.
  - destruct s as [|d s].
    + split; [discriminate | intros [r H]; discriminate].
    + destruct (Ascii.eqb c d); simpl; [apply IH |].
      split; [discriminate | intros [r H]; discriminate].
Qed.

(** What [span] returns: a split of the string, the first part within
    the class, the second part empty or starting outside of it. *)
Lemma span_spec (f : ascii -> bool) (s a b : string) :
  span f s = (a, b) ->
  s = a +:+ b /\ str_forallb f a = true /\ head_fails f b.
Proof.
  revert a b; induction s as [|c s IH]; intros a b H; simpl in H.
  - inversion H; subst. now repeat split.
  - destruct (f c) eqn:E.
    + destruct (span f s) as [a' b'] eqn:E'. inversion H; subst.
      destruct (IH _ _ eq_refl) as (-> & Ha & Hb).
      simpl. rewrite E, Ha. now repeat split.
    + inversion H; subst. simpl. now repeat split.
Qed.

Lemma span_app (f : ascii -> bool) (a b : string) :
  str_forallb f a = true -> head_fails f b -> span f (a +:+ b) = (a, b).
Proof.
  intros Ha Hb. induction a as [|c a IH]; simpl in *.
  - destruct b as [|d b]; simpl in *; [reflexivity | now rewrite Hb].
  - apply andb_true_iff in Ha as [Hc Ha]. now rewrite Hc, (IH Ha).
Qed.

Lemma str_last_app (a b : string) :
  b <> "" -> str_last (a +:+ b) = str_last b.
Proof.
  intros Hb. induction a as [|c a IH]; simpl; [reflexivity |].
  destruct (a +:+ b) eqn:E; [| exact IH].
  destruct a; simpl in E; [now subst | discriminate].
Qed.

Lemma ends_with_slash_app (a b : string) :
  b <> "" -> ends_with_slash (a +:+ b) = ends_with_slash b.
Proof. intros Hb. unfold ends_with_slash. now rewrite str_last_app. Qed.

Lemma str_last_None (s : string) : str_last s = None -> s = "".
Proof.
  induction s as [|c s IH]; [reflexivity |]. simpl.
  destruct s; [discriminate |]. intros H. now specialize (IH H).
Qed.

Lemma drop_last_snoc (s : string) (c : ascii) :
  str_last s = Some c -> s = drop_last s +:+ String c "".
Proof.
  induction s as [|d s IH]; simpl; [discriminate |].
  destruct s as [|e s]; [intros [= ->]; reflexivity |].
  intros H. simpl. f_equal. exact (IH H).
Qed.

Lemma starts_with_slash_drop_last (s : string) :
  starts_with_slash s = false -> starts_with_slash (drop_last s) = false.
Proof. destruct s as [|c [|d s]]; simpl; auto. Qed.

Lemma is_bucket_char_slash : is_bucket_char slash = false.
Proof. reflexivity. Qed.

(** ** PathCodec *)

Lemma re_findall_GS_URL_sound (path b key : string) :
  In (b, key) (re_findall_GS_URL path) -> GS_URL_match path b key.
Proof.
  unfold re_findall_GS_URL.
  destruct (strip_prefix "gs://" path) as [r1|] eqn:E1; [| intros []].
  apply strip_prefix_Some in E1.
  destruct (span is_bucket_char r1) as [bk r2] eqn:E2.
  apply span_spec in E2 as (-> & Hb & _).
  destruct bk as [|c0 bk]; [intros [] |].
  destruct r2 as [|c r3]; [intros [] |].
  destruct (Ascii.eqb c slash) eqn:Ec; [| intros []].
  apply Ascii.eqb_eq in Ec; subst c.
  destruct (span is_dot_char r3) as [nm r4] eqn:E3.
  apply span_spec in E3 as (-> & Hn & _).
  destruct nm as [|n0 nm]; [intros [] |].
  destruct (at_dollar r4) eqn:E4; [| intros []].
  intros [[= <- <-] | []].
  exists r4. repeat split; try discriminate; auto.
  destruct r4 as [|x [|y r]]; simpl in E4; try discriminate; auto.
  right. apply Ascii.eqb_eq in E4. now subst.
Qed.

Lemma re_findall_GS_URL_complete (path b key : string) :
  GS_URL_match path b key -> re_findall_GS_URL path = [(b, key)].
Proof.
  intros (tail & -> & Hb0 & Hb & Hk0 & Hk & Ht).
  unfold re_findall_GS_URL.
  change ("gs://" +:+ b +:+ "/" +:+ key +:+ tail)
    with ("gs://" +:+ (b +:+ String slash (key +:+ tail))).
  rewrite strip_prefix_app.
  rewrite (span_app is_bucket_char b (String slash (key +:+ tail)) Hb
             is_bucket_char_slash).
  destruct b as [|c0 b]; [congruence |].
  rewrite Ascii.eqb_refl.
  rewrite (span_app is_dot_char key tail Hk).
  - destruct key as [|k0 key]; [congruence |].
    destruct Ht as [-> | ->]; reflexivity.
  - destruct Ht as [-> | ->]; simpl; auto.
Qed.

(** [re.findall] on an anchored pattern yields no or one match. *)
Lemma re_findall_GS_URL_length (path : string) :
  (length (re_findall_GS_URL path) <= 1)%nat.
Proof.
  unfold re_findall_GS_URL.
  repeat match goal with
         | |- context [match ?x with _ => _ end] => destruct x; simpl; try lia
         end.
Qed.

Lemma parseGCSPath_Some (path : string) (r : GCSPath) :
  parseGCSPath path = Some r ->
  exists key,
    GS_URL_match path (bucket r) key /\
    name r = (if ends_with_slash key then drop_last key else key).
Proof.
  unfold parseGCSPath.
  destruct (re_findall_GS_URL path) as [|[b n] [|? ?]] eqn:E; try discriminate.
  intros [= <-]. simpl. exists n. split; [| reflexivity].
  apply re_findall_GS_URL_sound. rewrite E. now left.
Qed.

Lemma parseGCSPath_match (path b key : string) :
  GS_URL_match path b key ->
  parseGCSPath path =
    Some (mkGCSPath b (if ends_with_slash key then drop_last key else key)).
Proof.
  intros H. unfold parseGCSPath.
  now rewrite (re_findall_GS_URL_complete _ _ _ H).
Qed.

Example parseGCSPath_dir : parseGCSPath "gs://b-1/a/b/" = Some (mkGCSPath "b-1" "a/b").
Proof. reflexivity. Qed.

Example parseGCSPath_local : parseGCSPath "/tmp/gs/x" = None.
Proof. reflexivity. Qed.

Example parseGCSPath_upper : parseGCSPath "gs://Bucket/x" = None.
Proof. reflexivity. Qed.

(** C3, as stated, fails: the key group [(.+)] takes whatever follows the
    first slash after the container, leading slashes included, and only one
    trailing slash is stripped.  [gs://b//x//] parses to the name [/x/]. *)
Lemma parseGCSPath_invariant_fails :
  ~ (forall path r, parseGCSPath path = Some r -> RemotePath_invariant r).
Proof.
  intros H.
  destruct (H "gs://b//x//" (mkGCSPath "b" "/x/") eq_refl) as (_ & Hl & _).
  discriminate Hl.
Qed.

(** C3, amended: whenever [parseGCSPath] succeeds, the container matches
    [[a-z0-9_.-]+] and the name is the key matched by [(.+)] less one
    trailing slash; so the name has no leading slash when the key has none,
    and no trailing slash when the key does not end in two slashes. *)
Theorem parseGCSPath_invariant (path : string) (r : GCSPath) :
  parseGCSPath path = Some r ->
  exists key,
    GS_URL_match path (bucket r) key /\
    bucket_ok (bucket r) /\
    name r = (if ends_with_slash key then drop_last key else key) /\
    (starts_with_slash key = false -> starts_with_slash (name r) = false) /\
    (ends_with_slash (drop_last key) = false -> ends_with_slash (name r) = false).
Proof.
  intros H. destruct (parseGCSPath_Some _ _ H) as (key & Hm & Hn).
  exists key. split; [exact Hm |].
  destruct Hm as (tail & _ & Hb0 & Hb & _).
  split; [now split |]. split; [exact Hn |].
  rewrite Hn. split.
  - intros Hs. destruct (ends_with_slash key); [| exact Hs].
    now apply starts_with_slash_drop_last.
  - intros He. destruct (ends_with_slash key) eqn:E; [exact He | exact E].
Qed.

Lemma parseGCSPath_invariant_witness :
  exists key,
    GS_URL_match "gs://b-1/a/b/" "b-1" key /\
    bucket_ok "b-1" /\
    "a/b" = (if ends_with_slash key then drop_last key else key) /\
    (starts_with_slash key = false -> starts_with_slash "a/b" = false) /\
    (ends_with_slash (drop_last key) = false -> ends_with_slash "a/b" = false).
Proof.
  exact (parseGCSPath_invariant "gs://b-1/a/b/" (mkGCSPath "b-1" "a/b") eq_refl).
Defined.

Example repackGCSPath_ex : repackGCSPath "b-1" "a/b" = "gs://b-1/a/b".
Proof. reflexivity. Qed.

(** C4, as stated, fails in both directions: the empty key and a key with
    a newline do not survive [parse (repack c n)], and a path that ends in
    a newline matches the pattern (its [$] matches before a final newline)
    but is repacked without the newline. *)
Lemma parse_repack_roundtrip_fails :
  ~ (forall c n, bucket_ok c -> ends_with_slash n = false ->
       parseGCSPath (repackGCSPath c n) = Some (mkGCSPath c n)) /\
  ~ (forall p r, parseGCSPath p = Some r -> ends_with_slash p = false ->
       repackGCSPath (bucket r) (name r) = p).
Proof.
  split.
  - intros H.
    assert (Hb : bucket_ok "b") by (split; [discriminate | reflexivity]).
    specialize (H "b" "" Hb eq_refl). discriminate H.
  - intros H.
    specialize (H ("gs://b/n" +:+ String newline "") (mkGCSPath "b" "n")
                  eq_refl eq_refl).
    discriminate H.
Qed.

Example parse_repack_newline_key :
  parseGCSPath (repackGCSPath "b" ("x" +:+ String newline "y")) = None.
Proof. reflexivity. Qed.

Lemma GS_URL_path_repack (b key tail : string) :
  "gs://" +:+ b +:+ "/" +:+ key +:+ tail = repackGCSPath b key +:+ tail.
Proof. unfold repackGCSPath. now rewrite !app_assoc_str. Qed.

Lemma str_last_repack (b key : string) :
  key <> "" -> str_last (repackGCSPath b key) = str_last key.
Proof.
  intros Hk. unfold repackGCSPath.
  rewrite <- !app_assoc_str. now apply str_last_app.
Qed.

(** C4, amended: for a container matching [[a-z0-9_.-]+] and a non-empty
    key without newline and without trailing slash, [parse (repack c n)]
    is [{container: c, name: n}]; and for a path on which [parse] succeeds
    and which ends neither in a slash nor in a newline,
    [repack (parse p).container (parse p).name] is [p]. *)
Theorem parse_repack_roundtrip (c n p : string) (r : GCSPath) :
  bucket_ok c ->
  n <> "" -> str_forallb is_dot_char n = true -> ends_with_slash n = false ->
  parseGCSPath p = Some r ->
  ends_with_slash p = false -> str_last p <> Some newline ->
  parseGCSPath (repackGCSPath c n) = Some (mkGCSPath c n) /\
  repackGCSPath (bucket r) (name r) = p.
Proof.
  intros [Hc0 Hc] Hn0 Hn Hns Hp Hps Hpn. split.
  - assert (Hm : GS_URL_match (repackGCSPath c n) c n).
    { exists "". unfold repackGCSPath. rewrite app_empty_r.
      repeat split; auto. }
    rewrite (parseGCSPath_match _ _ _ Hm). now rewrite Hns.
  - destruct (parseGCSPath_Some _ _ Hp) as (key & Hm & Hname).
    destruct Hm as (tail & Hpath & _ & _ & Hk0 & _ & Ht).
    rewrite GS_URL_path_repack in Hpath.
    assert (tail = "") as ->.
    { destruct Ht as [-> | ->]; [reflexivity |]. exfalso. apply Hpn.
      rewrite Hpath. now rewrite str_last_app. }
    rewrite app_empty_r in Hpath.
    assert (Hke : ends_with_slash key = false).
    { rewrite <- Hps, Hpath. unfold ends_with_slash.
      now rewrite str_last_repack. }
    rewrite Hke in Hname. now rewrite Hname, Hpath.
Qed.

Lemma parse_repack_roundtrip_witness :
  parseGCSPath (repackGCSPath "b-1" "a/b") = Some (mkGCSPath "b-1" "a/b") /\
  repackGCSPath (bucket (mkGCSPath "b-1" "a/b")) (name (mkGCSPath "b-1" "a/b"))
    = "gs://b-1/a/b".
Proof.
  apply (parse_repack_roundtrip "b-1" "a/b" "gs://b-1/a/b" (mkGCSPath "b-1" "a/b")).
  - split; [discriminate | reflexivity].
  - discriminate.
  - reflexivity.
  - reflexivity.
  - reflexivity.
  - reflexivity.
  - discriminate.
Defined.

(** ** RetryGate *)

Lemma createFolder_loop_RetryGate {S} (service : DriveService S)
    (folderName : string) (md : FileMetadata) (n : nat) (w : World S) :
  createFolder_loop service folderName md n w =
  RetryGate (EvFilesCreate md None) (files_create service md None) fr_id
    (fun k e => ("Error creating folder %s. %d retries left. %s",
                 [ArgS folderName; ArgD (Z.of_nat k); ArgExn e]))
    "Too many create folder failures" n w.
Proof.
  revert w; induction n as [|n IH]; intros w; [reflexivity |].
  simpl. unfold try_except.
  destruct (bind _ _ w) as [[a|e] w']; [reflexivity |].
  destruct (is_Exception e); [| reflexivity].
  unfold bind. simpl.
  destruct (0 <? Z.of_nat n); simpl; apply IH.
Qed.

Lemma uploadFile_loop_RetryGate {S} (service : DriveService S)
    (localFilePath : string) (md : FileMetadata) (media : Media) (n : nat)
    (w : World S) :
  uploadFile_loop service localFilePath md media n w =
  RetryGate (EvFilesCreate md (Some media))
    (files_create service md (Some media)) (fun file => file)
    (fun k e => ("Error uploading image %s. %d retries left. %s",
                 [ArgS localFilePath; ArgD (Z.of_nat k); ArgExn e]))
    "Too many upload failures" n w.
Proof.
  revert w; induction n as [|n IH]; intros w; [reflexivity |].
  simpl. unfold try_except.
  destruct (bind _ _ w) as [[a|e] w']; [reflexivity |].
  destruct (is_Exception e); [| reflexivity].
  unfold bind. simpl.
  destruct (0 <? Z.of_nat n); simpl; apply IH.
Qed.

Lemma driveListFilesQueryWithNextToken_loop_RetryGate {S}
    (service : DriveService S) (param : ListParam) (n : nat) (w : World S) :
  driveListFilesQueryWithNextToken_loop service param n w =
  RetryGate (EvFilesList param) (files_list service param)
    (fun results => (default [] (files results), nextPageToken results))
    (fun k e => ("Error listing drive. %d retries left. %s",
                 [ArgD (Z.of_nat k); ArgExn e]))
    "Too many list failures" n w.
Proof.
  revert w; induction n as [|n IH]; intros w; [reflexivity |].
  simpl. unfold try_except.
  destruct (bind _ _ w) as [[a|e] w']; [reflexivity |].
  destruct (is_Exception e); [| reflexivity].
  unfold bind. simpl.
  destruct (0 <? Z.of_nat n); simpl; apply IH.
Qed.

Section RetryGate.
Context {S A B : Type}.
Variables (ev : Event) (step : S -> Result A * S) (onok : A -> B).
Variables (warn : nat -> exn -> string * list PyArg) (err : string).
Hypothesis ev_call : is_remote_call ev = true.

Lemma ev_not_sleep : sleep_of ev = None.
Proof. destruct ev; simpl in *; congruence. Qed.

Lemma invocations_app (l1 l2 : list Event) :
  invocations (l1 ++ l2) = (invocations l1 + invocations l2)%nat.
Proof. unfold invocations. now rewrite List.filter_app, List.length_app. Qed.

Lemma sleeps_app (l1 l2 : list Event) : sleeps (l1 ++ l2) = sleeps l1 ++ sleeps l2.
Proof. unfold sleeps. apply omap_app. Qed.

(** One failed attempt: the call, the warning, the sleep when a retry
    is left, and the rest of the loop. *)
Lemma RetryGate_fail_step (n : nat) (w : World S) (e : exn) (s' : S) :
  step (drive w) = (Raise e, s') -> is_Exception e = true ->
  RetryGate ev step onok warn err (Datatypes.S n) w =
  RetryGate ev step onok warn err n
    (mkWorld s' (gcs w) (fs w)
       (trace w ++ [ev; EvLog WARNING (fst (warn n e)) (snd (warn n e))]
          ++ (if (0 <? Z.of_nat n) then [EvSleep 5] else []))).
Proof.
  intros Hs He. simpl. unfold try_except, bind, drive_call.
  rewrite Hs, He. simpl.
  destruct (0 <? Z.of_nat n); simpl; rewrite <- !app_assoc; reflexivity.
Qed.

Lemma RetryGate_ok_step (n : nat) (w : World S) (a : A) (s' : S) :
  step (drive w) = (Ok a, s') ->
  RetryGate ev step onok warn err (Datatypes.S n) w =
  (Ok (Some (onok a)), mkWorld s' (gcs w) (fs w) (trace w ++ [ev])).
Proof.
  intros Hs. simpl. unfold try_except, bind, drive_call. now rewrite Hs.
Qed.

(** Exhaustion: [n] failing attempts are all made, with a sleep between
    two of them, and the loop gives [None]. *)
Lemma RetryGate_exhausted (n : nat) (w : World S) (d' : S) :
  all_fail step n (drive w) = Some d' ->
  exists evs,
    RetryGate ev step onok warn err n w =
      (Ok None, mkWorld d' (gcs w) (fs w) (trace w ++ evs)) /\
    invocations evs = n /\
    sleeps evs = repeat 5 (n - 1).
Proof.
  revert w; induction n as [|n IH]; intros w H; simpl in H.
  - inversion H; subst. eexists. split; [reflexivity |]. now split.
  - destruct (step (drive w)) as [[a|e] s'] eqn:Hs; [discriminate |].
    destruct (is_Exception e) eqn:He; [| discriminate].
    rewrite (RetryGate_fail_step n w e s' Hs He).
    match goal with |- context [RetryGate _ _ _ _ _ n ?w1] =>
      destruct (IH w1 H) as (evs & Hr & Hi & Hsl) end.
    cbn [drive gcs fs trace] in Hr.
    exists (([ev; EvLog WARNING (fst (warn n e)) (snd (warn n e))]
               ++ (if (0 <? Z.of_nat n) then [EvSleep 5] else [])) ++ evs).
    split.
    + rewrite Hr. now rewrite <- (List.app_assoc (trace w)).
    + rewrite !invocations_app, !sleeps_app, Hi, Hsl. split.
      * unfold invocations. simpl. rewrite ev_call.
        destruct (0 <? Z.of_nat n); simpl; lia.
      * simpl. rewrite ev_not_sleep.
        destruct n as [|n]; simpl; [reflexivity |].
        now rewrite Nat.sub_0_r.
Qed.

(** Success after [k] failures: [k + 1] attempts, [k] sleeps, and the
    successful call is the last event. *)
Lemma RetryGate_success_after (k n : nat) (w : World S) (dk d' : S) (a : A) :
  all_fail step k (drive w) = Some dk ->
  step dk = (Ok a, d') ->
  (k < n)%nat ->
  exists evs,
    RetryGate ev step onok warn err n w =
      (Ok (Some (onok a)), mkWorld d' (gcs w) (fs w) (trace w ++ evs ++ [ev])) /\
    invocations (evs ++ [ev]) = Datatypes.S k /\
    sleeps (evs ++ [ev]) = repeat 5 k.
Proof.
  revert n w; induction k as [|k IH]; intros n w H Hok Hlt; simpl in H.
  - inversion H; subst. destruct n as [|n]; [lia |].
    exists []. rewrite (RetryGate_ok_step n w a d' Hok).
    split; [reflexivity |]. unfold invocations, sleeps. simpl.
    now rewrite ev_call, ev_not_sleep.
  - destruct (step (drive w)) as [[a0|e] s'] eqn:Hs; [discriminate |].
    destruct (is_Exception e) eqn:He; [| discriminate].
    destruct n as [|n]; [lia |].
    rewrite (RetryGate_fail_step n w e s' Hs He).
    match goal with |- context [RetryGate _ _ _ _ _ n ?w1] =>
      destruct (IH n w1 H Hok ltac:(lia)) as (evs & Hr & Hi & Hsl) end.
    cbn [drive gcs fs trace] in Hr.
    exists (([ev; EvLog WARNING (fst (warn n e)) (snd (warn n e))]
               ++ (if (0 <? Z.of_nat n) then [EvSleep 5] else [])) ++ evs).
    split.
    + rewrite Hr. rewrite <- (List.app_assoc (trace w)).
      now rewrite <- (List.app_assoc _ evs [ev]).
    + rewrite <- (List.app_assoc _ evs [ev]).
      rewrite invocations_app, sleeps_app, Hi, Hsl. split.
      * rewrite invocations_app. unfold invocations at 1 2. simpl.
        rewrite ev_call. destruct (0 <? Z.of_nat n); simpl; lia.
      * rewrite sleeps_app. unfold sleeps at 1 2. simpl. rewrite ev_not_sleep.
        destruct n as [|n]; [lia |]. reflexivity.
Qed.
End RetryGate.

Lemma uploadFile_unfold {S} (service : DriveService S)
    (dirID localFilePath : string) (w : World S) :
  path_isfile (fs w) localFilePath = true ->
  uploadFile service dirID localFilePath w =
  RetryGate
    (EvFilesCreate
       {| md_name := purepath_name localFilePath; md_mimeType := None;
          md_parents := [dirID] |}
       (Some {| media_filename := localFilePath; media_mimetype := "image/jpeg" |}))
    (uploadFile_request service dirID localFilePath) (fun file => file)
    (fun k e => ("Error uploading image %s. %d retries left. %s",
                 [ArgS localFilePath; ArgD (Z.of_nat k); ArgExn e]))
    "Too many upload failures" 5 w.
Proof.
  intros Hf. unfold uploadFile, MediaFileUpload, bind, get_fs.
  rewrite Hf. unfold ret. apply uploadFile_loop_RetryGate.
Qed.

(** C5: when every attempt raises, [createFolder] and [uploadFile] call the
    backend exactly five times, sleep five seconds exactly four times (twenty
    seconds in all), and return [None] instead of raising. *)
Theorem RetryGate_exhaustion {S} (service : DriveService S)
    (parentDirID folderName dirID localFilePath : string) (w : World S) :
  (forall d',
     all_fail (createFolder_request service parentDirID folderName) 5 (drive w)
       = Some d' ->
     gave_up (createFolder service parentDirID folderName w) w d') /\
  (forall d',
     path_isfile (fs w) localFilePath = true ->
     all_fail (uploadFile_request service dirID localFilePath) 5 (drive w)
       = Some d' ->
     gave_up (uploadFile service dirID localFilePath w) w d').
Proof.
  split.
  - intros d' H. unfold createFolder, gave_up.
    rewrite createFolder_loop_RetryGate.
    destruct (RetryGate_exhausted
                (EvFilesCreate
                   {| md_name := folderName;
                      md_mimeType := Some "application/vnd.google-apps.folder";
                      md_parents := [parentDirID] |} None)
                (createFolder_request service parentDirID folderName) fr_id
                (fun k e => ("Error creating folder %s. %d retries left. %s",
                             [ArgS folderName; ArgD (Z.of_nat k); ArgExn e]))
                "Too many create folder failures" eq_refl 5%nat w d' H)
      as (evs & Hr & Hi & Hs).
    exists evs. split; [exact Hr |]. split; [exact Hi |].
    unfold total_delay. rewrite Hs. now split.
  - intros d' Hf H. unfold gave_up. rewrite (uploadFile_unfold _ _ _ _ Hf).
    destruct (RetryGate_exhausted
                (EvFilesCreate
                   {| md_name := purepath_name localFilePath; md_mimeType := None;
                      md_parents := [dirID] |}
                   (Some {| media_filename := localFilePath;
                            media_mimetype := "image/jpeg" |}))
                (uploadFile_request service dirID localFilePath) (fun file => file)
                (fun k e => ("Error uploading image %s. %d retries left. %s",
                             [ArgS localFilePath; ArgD (Z.of_nat k); ArgExn e]))
                "Too many upload failures" eq_refl 5%nat w d' H)
      as (evs & Hr & Hi & Hs).
    exists evs. split; [exact Hr |]. split; [exact Hi |].
    unfold total_delay. rewrite Hs. now split.
Qed.

Lemma RetryGate_exhaustion_witness :
  gave_up (createFolder scripted "root" "cam1" (example_world (mkScript [] [] [])))
    (example_world (mkScript [] [] [])) (mkScript [] [] []) /\
  gave_up (uploadFile scripted "dir" "img/cam1.jpg" (example_world (mkScript [] [] [])))
    (example_world (mkScript [] [] [])) (mkScript [] [] []).
Proof.
  destruct (RetryGate_exhaustion scripted "root" "cam1" "dir" "img/cam1.jpg"
              (example_world (mkScript [] [] []))) as [H1 H2].
  split.
  - apply H1. reflexivity.
  - apply H2; reflexivity.
Defined.

(** C6: when the first two attempts raise and the third answers,
    [createFolder] and [uploadFile] return the value of the third attempt
    (the new folder's ID, the upload result) after exactly three remote
    calls, the successful call being the last thing they do. *)
Theorem RetryGate_success_after_failure {S} (service : DriveService S)
    (parentDirID folderName dirID localFilePath : string) (w : World S) :
  (forall d2 d3 folder,
     all_fail (createFolder_request service parentDirID folderName) 2 (drive w)
       = Some d2 ->
     createFolder_request service parentDirID folderName d2 = (Ok folder, d3) ->
     third_time_lucky (createFolder service parentDirID folderName w) w d3
       (fr_id folder)) /\
  (forall d2 d3 file,
     path_isfile (fs w) localFilePath = true ->
     all_fail (uploadFile_request service dirID localFilePath) 2 (drive w)
       = Some d2 ->
     uploadFile_request service dirID localFilePath d2 = (Ok file, d3) ->
     third_time_lucky (uploadFile service dirID localFilePath w) w d3 file).
Proof.
  split.
  - intros d2 d3 folder H Hok. unfold createFolder, third_time_lucky.
    rewrite createFolder_loop_RetryGate.
    destruct (RetryGate_success_after
                (EvFilesCreate
                   {| md_name := folderName;
                      md_mimeType := Some "application/vnd.google-apps.folder";
                      md_parents := [parentDirID] |} None)
                (createFolder_request service parentDirID folderName) fr_id
                (fun k e => ("Error creating folder %s. %d retries left. %s",
                             [ArgS folderName; ArgD (Z.of_nat k); ArgExn e]))
                "Too many create folder failures" eq_refl 2%nat 5%nat w d2 d3
                folder H Hok ltac:(lia))
      as (evs & Hr & Hi & Hs).
    exists evs. eexists. split; [exact Hr |]. now repeat split.
  - intros d2 d3 file Hf H Hok. unfold third_time_lucky.
    rewrite (uploadFile_unfold _ _ _ _ Hf).
    destruct (RetryGate_success_after
                (EvFilesCreate
                   {| md_name := purepath_name localFilePath; md_mimeType := None;
                      md_parents := [dirID] |}
                   (Some {| media_filename := localFilePath;
                            media_mimetype := "image/jpeg" |}))
                (uploadFile_request service dirID localFilePath) (fun file => file)
                (fun k e => ("Error uploading image %s. %d retries left. %s",
                             [ArgS localFilePath; ArgD (Z.of_nat k); ArgExn e]))
                "Too many upload failures" eq_refl 2%nat 5%nat w d2 d3
                file H Hok ltac:(lia))
      as (evs & Hr & Hi & Hs).
    exists evs. eexists. split; [exact Hr |]. now repeat split.
Qed.

Lemma RetryGate_success_after_failure_witness :
  let s := mkScript []
             [Raise (RemoteError "500"); Raise (RemoteError "503");
              Ok (mkFileResource "id-7")] [] in
  third_time_lucky (createFolder scripted "root" "cam1" (example_world s))
    (example_world s) (mkScript [] [] []) "id-7" /\
  third_time_lucky (uploadFile scripted "dir" "img/cam1.jpg" (example_world s))
    (example_world s) (mkScript [] [] []) (mkFileResource "id-7").
Proof.
  intros s.
  destruct (RetryGate_success_after_failure scripted "root" "cam1" "dir"
              "img/cam1.jpg" (example_world s)) as [H1 H2].
  split.
  - apply (H1 (mkScript [] [Ok (mkFileResource "id-7")] []) (mkScript [] [] [])
             (mkFileResource "id-7")); reflexivity.
  - apply (H2 (mkScript [] [Ok (mkFileResource "id-7")] []) (mkScript [] [] [])
             (mkFileResource "id-7")); reflexivity.
Defined.

Example createFolder_third_attempt :
  let s := mkScript []
             [Raise (RemoteError "500"); Raise (RemoteError "503");
              Ok (mkFileResource "id-7"); Ok (mkFileResource "id-8")] [] in
  createFolder scripted "root" "cam1" (example_world s) =
  (Ok (Some "id-7"),
   mkWorld (mkScript [] [Ok (mkFileResource "id-8")] []) []
     {[ "img/cam1.jpg" := File "jpeg" ]}
     (let call :=
        EvFilesCreate
          (mkFileMetadata "cam1" (Some "application/vnd.google-apps.folder") ["root"])
          None in
      [call;
       EvLog WARNING "Error creating folder %s. %d retries left. %s"
         [ArgS "cam1"; ArgD 4; ArgExn (RemoteError "500")];
       EvSleep 5;
       call;
       EvLog WARNING "Error creating folder %s. %d retries left. %s"
         [ArgS "cam1"; ArgD 3; ArgExn (RemoteError "503")];
       EvSleep 5;
       call])).
Proof. vm_compute. reflexivity. Qed.

(** An exception that [except Exception] does not catch leaves the loop
    at once. *)
Example createFolder_interrupted :
  let s := mkScript [] [Raise KeyboardInterrupt] [] in
  fst (createFolder scripted "root" "cam1" (example_world s)) = Raise KeyboardInterrupt.
Proof. reflexivity. Qed.

(** ** Paginator *)

Example searchAllFiles_two_pages :
  let s := mkScript [Ok page1; Ok page2] [] [] in
  match searchAllFiles 5 scripted "folder" None None None (example_world s) with
  | Some (r, w') =>
      r = Ok [mkItem "id-1" "a.jpg"; mkItem "id-2" "b.jpg"; mkItem "id-3" "c.jpg"]
      /\ List.map (fun ev => match ev with
                             | EvFilesList p => pageToken p
                             | _ => Some "?" end) (trace w')
         = [None; Some "t2"]
  | None => False
  end.
Proof. vm_compute. split; reflexivity. Qed.

Lemma searchFiles_paged {S} (service : DriveService S) (parentID : string)
    (minTime maxTime pfx npt : option string) (w : World S) :
  opt_truthy npt = true ->
  exists customQuery pageToken,
    searchFiles service parentID minTime maxTime pfx npt w =
    (let* r := driveListFilesQueryWithNextToken service parentID customQuery
                 pageToken in
     ret (Paged r)) w.
Proof.
  intros H. unfold searchFiles. rewrite H. eauto.
Qed.

(** Whatever has been accumulated, a page fetch that gives up makes the
    loop of [searchAllFiles] raise: unpacking [None] is a [TypeError]. *)
Lemma searchAllFiles_loop_sentinel {S} (fuel : nat) (service : DriveService S)
    (parentID : string) (minTime maxTime pfx token : option string)
    (allItems : list DriveItem) (w w' : World S) :
  opt_truthy token = true ->
  searchFiles service parentID minTime maxTime pfx token w = (Ok (Paged None), w') ->
  searchAllFiles_loop (Datatypes.S fuel) service parentID minTime maxTime pfx
    allItems token w = Some (Raise unpack_None, w').
Proof.
  intros Ht Hs. simpl. rewrite Ht. unfold bind at 1. now rewrite Hs.
Qed.

(** C1 fails on the code: the first page is served with a token, every
    later fetch raises; [driveListFilesQueryWithNextToken] gives up after
    five attempts and returns [None], and [searchAllFiles] raises the
    [TypeError] of unpacking it instead of returning the two items of the
    first page. *)
Theorem searchAllFiles_page_failure_raises :
  let w0 := example_world (mkScript [Ok page1] [] []) in
  exists w',
    searchAllFiles 5 scripted "folder" None None None w0
      = Some (Raise unpack_None, w') /\
    invocations (trace w') = 6%nat /\
    List.last (trace w') (EvSleep 0) = EvLog ERROR "Too many list failures" [].
Proof. eexists. vm_compute. repeat split. Qed.

(** ** Lookups by name *)



Example downloadFile_two_matches :
  let s := mkScript
             [Ok (mkListResults
                    (Some [mkItem "id-1" "a.jpg"; mkItem "id-2" "a.jpg"]) None)]
             [] [("id-1", "first"); ("id-2", "second")] in
  let r := downloadFile scripted "dir" "a.jpg" "out.jpg" (example_world s) in
  fst r = Ok tt /\
  fs (snd r) !! "out.jpg" = Some (File "first") /\
  downloads (trace (snd r)) = [EvGetMedia "id-1"].
Proof. vm_compute. repeat split. Qed.





Example downloadFile_no_match :
  let s := mkScript [Ok (mkListResults (Some []) None)] [] [("id-1", "first")] in
  let r := downloadFile scripted "dir" "a.jpg" "out.jpg" (example_world s) in
  fst r = Raise (SystemExit 1) /\ downloads (trace (snd r)) = [] /\
  fs (snd r) !! "out.jpg" = None.
Proof. vm_compute. repeat split. Qed.

(** C7: when the search for the camera's folder yields a number of folders
    other than one, [getDirForClassCamera] raises, after logging, and
    returns no folder; when it yields exactly one folder, it returns the
    ID and the name of that folder. *)
Theorem getDirForClassCamera_unique {S} (service : DriveService S)
    (classLocations : gmap string string) (imgClass cameraID parent : string)
    (w w1 : World S) (dirs : list DriveItem) :
  classLocations !! imgClass = Some parent ->
  driveListFilesByName service parent (Some cameraID) w = (Ok dirs, w1) ->
  (length dirs <> 1%nat ->
   exists evs,
     getDirForClassCamera service classLocations imgClass cameraID w =
       (Raise (Exception_ "getDirForClassCam: Directory not found"),
        add_events w1 evs) /\
     invocations evs = 0%nat) /\
  (forall d, dirs = [d] ->
     getDirForClassCamera service classLocations imgClass cameraID w =
       (Ok (item_id d, item_name d), w1)).
Proof.
  intros Hp Hd. unfold getDirForClassCamera, dict_get.
  rewrite Hp. unfold bind at 1. unfold ret at 1. unfold bind at 1.
  rewrite Hd. split.
  - intros Hn.
    assert (Hne : (len dirs =? 1) = false).
    { unfold len. apply Z.eqb_neq. lia. }
    unfold bind at 1. rewrite Hne.
    exists [EvLog ERROR "Expected 1 directory with name %s, but found %d: %s"
              [ArgS cameraID; ArgD (len dirs); ArgItems dirs];
            EvLog ERROR "Searching in dir: %s" [ArgS parent];
            EvLog ERROR "ImgClass %s, locations: %s"
              [ArgS imgClass; ArgDict classLocations]].
    split; [| reflexivity].
    unfold bind, logging_error, emit, raise, add_events. simpl.
    now rewrite <- !List.app_assoc.
  - intros d Hdd. subst dirs. unfold bind at 1. unfold ret at 1.
    unfold bind at 1. rewrite Hd. reflexivity.
Qed.

Lemma getDirForClassCamera_unique_witness :
  let locations : gmap string string := {[ "smoke" := "folder-smoke" ]} in
  let two := mkScript
               [Ok (mkListResults
                      (Some [mkItem "id-1" "cam1"; mkItem "id-2" "cam1"]) None)]
               [] [] in
  let one := mkScript [Ok (mkListResults (Some [mkItem "id-1" "cam1"]) None)]
               [] [] in
  (exists evs,
     getDirForClassCamera scripted locations "smoke" "cam1" (example_world two) =
       (Raise (Exception_ "getDirForClassCam: Directory not found"),
        add_events
          (snd (driveListFilesByName scripted "folder-smoke" (Some "cam1")
                  (example_world two))) evs) /\
     invocations evs = 0%nat) /\
  getDirForClassCamera scripted locations "smoke" "cam1" (example_world one) =
    (Ok ("id-1", "cam1"),
     snd (driveListFilesByName scripted "folder-smoke" (Some "cam1")
            (example_world one))).
Proof.
  intros locations two one. split.
  - refine (proj1 (getDirForClassCamera_unique scripted locations "smoke" "cam1"
                     "folder-smoke" (example_world two) _
                     [mkItem "id-1" "cam1"; mkItem "id-2" "cam1"]
                     eq_refl eq_refl) _).
    simpl. lia.
  - exact (proj2 (getDirForClassCamera_unique scripted locations "smoke" "cam1"
                    "folder-smoke" (example_world one) _
                    [mkItem "id-1" "cam1"] eq_refl eq_refl)
             (mkItem "id-1" "cam1") eq_refl).
Defined.

Example getDirForClassCamera_none :
  let locations : gmap string string := {[ "smoke" := "folder-smoke" ]} in
  let s := mkScript [Ok (mkListResults (Some []) None)] [] [] in
  fst (getDirForClassCamera scripted locations "smoke" "cam1" (example_world s))
    = Raise (Exception_ "getDirForClassCam: Directory not found").
Proof. vm_compute. reflexivity. Qed.

Example getDirForClassCamera_unknown_class :
  let locations : gmap string string := {[ "smoke" := "folder-smoke" ]} in
  fst (getDirForClassCamera scripted locations "fog" "cam1"
         (example_world (mkScript [] [] [])))
    = Raise (KeyError "fog").
Proof. vm_compute. reflexivity. Qed.

(** ** ObjectStore: listing modes *)

(** C10: [listBucketEntries] with both [getDirs] and [deep] set fails its
    assertion before it lists anything; with at most one of the two set,
    the assertion does not fail. *)
Theorem listBucketEntries_modes {S} (bucketName pfx : string) (w : World S) :
  listBucketEntries bucketName pfx true true w = (Raise AssertionError, w) /\
  (forall getDirs deep,
     getDirs && deep = false ->
     fst (listBucketEntries bucketName pfx getDirs deep w) <> Raise AssertionError).
Proof.
  split; [reflexivity |].
  intros getDirs deep H.
  unfold listBucketEntries, list_blobs, bind, emit, py_assert, ret.
  destruct getDirs, deep; try discriminate; simpl;
    destruct (find_bucket bucketName (gcs w)); simpl; discriminate.
Qed.

Lemma listBucketEntries_modes_witness :
  let w : World unit := mkWorld tt (tree_bucket "one" "two") ∅ [] in
  listBucketEntries "bkt" "a/" true true w = (Raise AssertionError, w) /\
  fst (listBucketEntries "bkt" "a/" true false w) <> Raise AssertionError /\
  fst (listBucketEntries "bkt" "a/" false true w) <> Raise AssertionError /\
  fst (listBucketEntries "bkt" "a/" false false w) <> Raise AssertionError.
Proof.
  intros w.
  destruct (listBucketEntries_modes "bkt" "a/" w) as [H1 H2].
  split; [exact H1 |].
  split; [apply H2; reflexivity |].
  split; apply H2; reflexivity.
Defined.

Example listBucketEntries_files :
  let w : World unit := mkWorld tt (tree_bucket "one" "two") ∅ [] in
  fst (listBucketEntries "bkt" "a/" false false w) = Ok ["a/f1"] /\
  fst (listBucketEntries "bkt" "a/" true false w) = Ok ["a/b"] /\
  fst (listBucketEntries "bkt" "a/" false true w) = Ok ["a/f1"; "a/b/f2"] /\
  fst (listBucketEntries "bkt" "" true false w) = Ok ["a"].
Proof. vm_compute. repeat split. Qed.

(** ** TreeSync: what a download may change *)

Lemma path_isfile_mono (f f' : gmap string Node) (p : string) :
  f ⊆ f' -> path_isfile f p = true -> path_isfile f' p = true.
Proof.
  intros Hsub. unfold path_isfile.
  destruct (f !! fs_key p) as [[c|]|] eqn:E; try discriminate.
  now rewrite (lookup_weaken _ _ _ _ E Hsub).
Qed.

Lemma path_isfile_anti (f f' : gmap string Node) (p : string) :
  f ⊆ f' -> path_isfile f' p = false -> path_isfile f p = false.
Proof.
  intros Hsub H. destruct (path_isfile f p) eqn:E; [| reflexivity].
  now rewrite (path_isfile_mono _ _ _ Hsub E) in H.
Qed.

Lemma fetches_app (l1 l2 : list Event) : fetches (l1 ++ l2) = fetches l1 ++ fetches l2.
Proof. apply omap_app. Qed.

Lemma polite_step_refl {S} (w : World S) : polite_step w w.
Proof.
  repeat split; auto. exists []. rewrite app_nil_r. split; [reflexivity | constructor].
Qed.

Lemma polite_step_trans {S} (w1 w2 w3 : World S) :
  polite_step w1 w2 -> polite_step w2 w3 -> polite_step w1 w3.
Proof.
  intros (Hd1 & Hg1 & Hf1 & evs1 & Ht1 & Hp1) (Hd2 & Hg2 & Hf2 & evs2 & Ht2 & Hp2).
  repeat split; try congruence.
  - now transitivity (fs w2).
  - exists (evs1 ++ evs2). split.
    + now rewrite Ht2, Ht1, <- app_assoc.
    + rewrite fetches_app. apply Forall_app. split; [exact Hp1 |].
      eapply Forall_impl; [exact Hp2 |]. intros p Hp. simpl in Hp.
      now apply (path_isfile_anti _ _ _ Hf1).
Qed.

Lemma polite_ret {S A} (a : A) : polite (@ret S A a).
Proof. intros w r w' [= <- <-]. apply polite_step_refl. Qed.

Lemma polite_raise {S A} (e : exn) : polite (@raise S A e).
Proof. intros w r w' [= <- <-]. apply polite_step_refl. Qed.

Lemma polite_bind {S A B} (m : M S A) (k : A -> M S B) :
  polite m -> (forall a, polite (k a)) -> polite (bind m k).
Proof.
  intros Hm Hk w r w' H. unfold bind in H.
  destruct (m w) as [[a|e] w1] eqn:E.
  - eapply polite_step_trans; [exact (Hm _ _ _ E) | exact (Hk _ _ _ _ H)].
  - inversion H; subst. exact (Hm _ _ _ E).
Qed.

Lemma polite_get_fs {S} : polite (@get_fs S).
Proof. intros w r w' [= <- <-]. apply polite_step_refl. Qed.

Lemma polite_emit {S} (ev : Event) : fetch_of ev = None -> polite (@emit S ev).
Proof.
  intros Hev w r w' [= <- <-]. repeat split; auto.
  exists [ev]. split; [reflexivity |]. unfold fetches. simpl. rewrite Hev. constructor.
Qed.

Lemma polite_set_fs_insert {S} (k : string) (v : Node) (w : World S) r w' :
  fs w !! k = None ->
  set_fs (<[k := v]> (fs w)) w = (r, w') -> polite_step w w'.
Proof.
  intros Hk [= <- <-]. repeat split; simpl; auto.
  - now apply insert_subseteq.
  - exists []. rewrite app_nil_r. split; [reflexivity | constructor].
Qed.

Lemma make_ancestors_grows (l : list string) (f f' : gmap string Node) :
  make_ancestors f l = Ok f' -> f ⊆ f'.
Proof.
  revert f; induction l as [|a l IH]; intros f H; simpl in H.
  - now inversion H.
  - destruct (f !! a) as [[c|]|] eqn:E; try discriminate; auto.
    transitivity (<[a := Dir]> f); [now apply insert_subseteq | now apply IH].
Qed.

Lemma polite_os_makedirs {S} (p : string) : polite (@os_makedirs S p).
Proof.
  intros w r w' H. unfold os_makedirs, bind, get_fs in H.
  destruct (make_ancestors (fs w) (path_ancestors p)) as [f'|e] eqn:E.
  - apply make_ancestors_grows in E.
    destruct (negb (is_none (f' !! fs_key p)) || negb (str_truthy p)) eqn:Hc.
    + inversion H; subst. apply polite_step_refl.
    + apply orb_false_iff in Hc as [Hc _].
      destruct (f' !! fs_key p) eqn:Hl; [discriminate |].
      inversion H; subst. repeat split; simpl; auto.
      * transitivity f'; [exact E | now apply insert_subseteq].
      * exists []. rewrite app_nil_r. split; [reflexivity | constructor].
  - inversion H; subst. apply polite_step_refl.
Qed.

Lemma rstrip_slash_id (p : string) :
  ends_with_slash p = false -> rstrip_slash p = p.
Proof.
  unfold ends_with_slash. induction p as [|c p IH]; [reflexivity |].
  simpl. destruct p as [|d p].
  - simpl. intros ->. reflexivity.
  - intros H. rewrite (IH H). simpl. now rewrite andb_false_r.
Qed.

Lemma fs_key_id (p : string) : ends_with_slash p = false -> fs_key p = p.
Proof.
  intros H. unfold fs_key. rewrite (rstrip_slash_id _ H).
  destruct p as [|c p]; [reflexivity |]. simpl. now rewrite andb_false_r.
Qed.

(** Writing a path that is not a local file adds an entry. *)
Lemma write_file_polite {S} (p content : string) (w : World S) r w' :
  path_isfile (fs w) p = false ->
  write_file p content w = (r, w') -> polite_step w w'.
Proof.
  intros Hf H. unfold write_file, bind, get_fs in H.
  destruct (negb (str_truthy p) || ends_with_slash p) eqn:Hc.
  - inversion H; subst. apply polite_step_refl.
  - apply orb_false_iff in Hc as [_ Hs].
    unfold path_isfile in Hf. rewrite (fs_key_id _ Hs), Hs in Hf.
    destruct (fs w !! p) as [[c|]|] eqn:E; try discriminate.
    + inversion H; subst. apply polite_step_refl.
    + destruct (parent_is_dir (fs w) p).
      * eapply polite_set_fs_insert; eauto.
      * inversion H; subst. apply polite_step_refl.
Qed.

Lemma polite_downloadBucketFile {S} (bucketName fileID localFilePath : string) :
  polite (@downloadBucketFile S bucketName fileID localFilePath).
Proof.
  intros w r w' H. unfold downloadBucketFile, bind, get_fs in H.
  destruct (path_isfile (fs w) localFilePath) eqn:Hf.
  - inversion H; subst. apply polite_step_refl.
  - unfold blob_download_to_filename, bind, emit in H.
    set (w1 := mkWorld (drive w) (gcs w) (fs w)
                 (trace w ++ [EvBlobDownload bucketName fileID localFilePath])) in *.
    assert (H1 : polite_step w w1).
    { repeat split; auto. eexists. split; [reflexivity |].
      unfold fetches. simpl. constructor; [exact Hf | constructor]. }
    destruct (find_bucket bucketName (gcs w1)) as [blobs|].
    + destruct (List.find _ blobs) as [b|].
      * eapply polite_step_trans; [exact H1 |].
        eapply write_file_polite; [| exact H]. exact Hf.
      * now inversion H; subst.
    + now inversion H; subst.
Qed.

Lemma polite_list_blobs {S} (bucketName pfx delimiter : string) :
  polite (@list_blobs S bucketName pfx delimiter).
Proof.
  unfold list_blobs. apply polite_bind; [now apply polite_emit |].
  intros _ w r w' H.
  destruct (find_bucket bucketName (gcs w)); inversion H; subst;
    apply polite_step_refl.
Qed.

Lemma polite_listBucketEntries {S} (bucketName pfx : string) (getDirs deep : bool) :
  polite (@listBucketEntries S bucketName pfx getDirs deep).
Proof.
  unfold listBucketEntries. apply polite_bind.
  - destruct getDirs; [| apply polite_ret].
    unfold py_assert. destruct (negb deep); [apply polite_ret | apply polite_raise].
  - intros _. apply polite_bind; [apply polite_list_blobs |].
    intros blobs. destruct getDirs; apply polite_ret.
Qed.

Lemma polite_for_loop {S A} (body : A -> M S unit) (l : list A) :
  (forall x, polite (body x)) -> polite (for_loop body l).
Proof.
  intros Hb. induction l as [|x l IH]; simpl.
  - apply polite_ret.
  - apply polite_bind; [apply Hb | intros _; exact IH].
Qed.

Lemma polite_downloadBucketDir_level {S} (bucketName dirID localDirPath : string) :
  polite (@downloadBucketDir_level S bucketName dirID localDirPath).
Proof.
  unfold downloadBucketDir_level.
  apply polite_bind; [apply polite_get_fs |]. intros f.
  apply polite_bind.
  { destruct (negb (path_exists f localDirPath));
      [apply polite_os_makedirs | apply polite_ret]. }
  intros _. apply polite_bind.
  { destruct (str_last dirID); [apply polite_ret | apply polite_raise]. }
  intros d. apply polite_bind; [apply polite_listBucketEntries |].
  intros files. apply polite_bind; [| intros _; apply polite_listBucketEntries].
  apply polite_for_loop. intros x. apply polite_downloadBucketFile.
Qed.

Lemma for_each_polite {S A} (body : A -> World S -> option (Result unit * World S))
    (l : list A) :
  (forall x w r w', In x l -> body x w = Some (r, w') -> polite_step w w') ->
  forall w r w', for_each body l w = Some (r, w') -> polite_step w w'.
Proof.
  induction l as [|x l IH]; intros Hb w r w' H; simpl in H.
  - inversion H; subst. apply polite_step_refl.
  - destruct (body x w) as [[[u|e] w1]|] eqn:E; try discriminate.
    + eapply polite_step_trans.
      * eapply Hb; [now left | exact E].
      * eapply IH; [| exact H]. intros; eapply Hb; eauto. now right.
    + inversion H; subst. eapply Hb; [now left | exact E].
Qed.

Lemma downloadBucketDir_polite {S} (fuel : nat)
    (bucketName dirID localDirPath : string) (w w' : World S) r :
  downloadBucketDir fuel bucketName dirID localDirPath w = Some (r, w') ->
  polite_step w w'.
Proof.
  revert dirID localDirPath w w' r.
  induction fuel as [|fuel IH]; intros dirID localDirPath w w' r H;
    [discriminate |].
  simpl in H.
  destruct (downloadBucketDir_level bucketName dirID localDirPath w)
    as [[dirs|e] w1] eqn:E.
  - eapply polite_step_trans;
      [exact (polite_downloadBucketDir_level _ _ _ _ _ _ E) |].
    eapply for_each_polite; [| exact H].
    intros d w2 r2 w3 _ H2. exact (IH _ _ _ _ _ H2).
  - inversion H; subst. exact (polite_downloadBucketDir_level _ _ _ _ _ _ E).
Qed.

(** A file that is already there is not fetched, and nothing else happens. *)
Lemma downloadBucketFile_skips {S} (bucketName fileID localFilePath : string)
    (w : World S) :
  path_isfile (fs w) localFilePath = true ->
  downloadBucketFile bucketName fileID localFilePath w = (Ok tt, w).
Proof.
  intros H. unfold downloadBucketFile, bind, get_fs. now rewrite H.
Qed.

(** ** TreeSync: termination *)

Lemma drop_last_app_slash (s : string) : drop_last (s +:+ "/") = s.
Proof.
  induction s as [|c s IH]; [reflexivity |].
  simpl. rewrite IH. destruct s; reflexivity.
Qed.

Lemma starts_with_app (p x : string) : starts_with p (p +:+ x) = true.
Proof.
  induction p as [|c p IH]; [reflexivity |].
  simpl. now rewrite Ascii.eqb_refl.
Qed.

Lemma not_slash_false (c : ascii) : not_slash c = false -> c = slash.
Proof.
  unfold not_slash. intros H. apply negb_false_iff in H.
  now apply Ascii.eqb_eq.
Qed.

(** A directory listed under [pfx] is [pfx] followed by a segment without
    slash, and some object of the bucket continues it with a slash. *)
Lemma listed_dir_inv (blobs : list Blob) (pfx d : string) :
  In d (List.map drop_last (snd (list_blobs_of blobs pfx true))) ->
  exists b seg rest,
    In b blobs /\
    blob_name b = pfx +:+ seg +:+ String slash rest /\
    d = pfx +:+ seg.
Proof.
  unfold list_blobs_of. simpl. intros H.
  apply List.in_map_iff in H as (g & <- & Hg).
  apply list_elem_of_In, elem_of_remove_dups, list_elem_of_omap in Hg
    as (b & Hb & Hgrp).
  apply list_elem_of_In, List.filter_In in Hb as [Hb _].
  unfold blob_group in Hgrp.
  destruct (strip_prefix pfx (blob_name b)) as [rest0|] eqn:E; [| discriminate].
  apply strip_prefix_Some in E.
  unfold group_prefix in Hgrp.
  destruct (span not_slash rest0) as [seg r] eqn:Es.
  apply span_spec in Es as (-> & _ & Hr).
  destruct r as [|c r]; [discriminate |].
  simpl in Hr. apply not_slash_false in Hr; subst c.
  inversion Hgrp; subst g.
  exists b, seg, r. split; [exact Hb |]. split; [exact E |].
  now rewrite <- app_assoc_str, drop_last_app_slash.
Qed.

Lemma max_name_length_ge (blobs : list Blob) (b : Blob) :
  In b blobs -> (String.length (blob_name b) <= max_name_length blobs)%nat.
Proof.
  unfold max_name_length. induction blobs as [|x l IH]; [intros [] |].
  simpl. intros [-> | H]; [lia |]. specialize (IH H). lia.
Qed.

Lemma listed_dir_short (blobs : list Blob) (pfx d : string) :
  In d (List.map drop_last (snd (list_blobs_of blobs pfx true))) ->
  starts_with pfx d = true /\
  (String.length d < max_name_length blobs)%nat.
Proof.
  intros H. destruct (listed_dir_inv _ _ _ H) as (b & seg & rest & Hb & Hn & ->).
  split; [apply starts_with_app |].
  apply max_name_length_ge in Hb. rewrite Hn in Hb.
  rewrite !app_length_str in *. simpl in Hb. lia.
Qed.

Lemma has_double_slash_app (pfx rest : string) :
  ends_with_slash pfx = true ->
  has_double_slash (pfx +:+ String slash rest) = true.
Proof.
  unfold ends_with_slash. induction pfx as [|c p IH]; [discriminate |].
  destruct p as [|e p].
  - simpl. intros ->. reflexivity.
  - intros H. simpl in H. change (String c (String e p) +:+ String slash rest)
      with (String c (String e p +:+ String slash rest)).
    cbn [has_double_slash]. rewrite (IH H). apply orb_true_r.
Qed.

(** A bucket without doubled slashes in its names is acyclic. *)
Lemma no_double_slash_acyclic (blobs : list Blob) :
  forallb (fun b => negb (has_double_slash (blob_name b))) blobs = true ->
  acyclic blobs.
Proof.
  intros Hall pfx d Hp Hd.
  destruct (listed_dir_inv _ _ _ Hd) as (b & seg & rest & Hb & Hn & ->).
  split; [apply starts_with_app |].
  rewrite app_length_str.
  destruct seg as [|c seg]; [| simpl; lia].
  exfalso. rewrite forallb_forall in Hall. specialize (Hall b Hb).
  rewrite Hn in Hall. simpl in Hall.
  now rewrite (has_double_slash_app pfx rest Hp) in Hall.
Qed.

Lemma with_slash_ends (dirID : string) : ends_with_slash (with_slash dirID) = true.
Proof.
  unfold with_slash. destruct (ends_with_slash dirID) eqn:E; [exact E |].
  now rewrite ends_with_slash_app.
Qed.

Lemma with_slash_length (dirID : string) :
  (String.length dirID <= String.length (with_slash dirID))%nat.
Proof.
  unfold with_slash. destruct (ends_with_slash dirID); [lia |].
  rewrite app_length_str. lia.
Qed.

Lemma bind_Ok_inv {S A B} (m : M S A) (k : A -> M S B) (w w' : World S) (b : B) :
  bind m k w = (Ok b, w') ->
  exists a w1, m w = (Ok a, w1) /\ k a w1 = (Ok b, w').
Proof.
  unfold bind. destruct (m w) as [[a|e] w1]; [eauto | discriminate].
Qed.

Lemma listBucketEntries_dirs {S} (bucketName pfx : string) (w w' : World S)
    (dirs : list string) :
  listBucketEntries bucketName pfx true false w = (Ok dirs, w') ->
  dirs = List.map drop_last
           (snd (list_blobs_of (bucket_blobs bucketName (gcs w)) pfx true)).
Proof.
  unfold listBucketEntries, list_blobs, bind, emit, py_assert, ret, bucket_blobs.
  simpl. destruct (find_bucket bucketName (gcs w)); simpl; [| discriminate].
  now intros [= <- _].
Qed.

(** The directories that [downloadBucketDir] recurses into are those
    listed under [dirID] with a slash at its end. *)
Lemma downloadBucketDir_level_dirs {S} (bucketName dirID localDirPath : string)
    (w w' : World S) (dirs : list string) :
  downloadBucketDir_level bucketName dirID localDirPath w = (Ok dirs, w') ->
  gcs w' = gcs w /\
  dirs = List.map drop_last
           (snd (list_blobs_of (bucket_blobs bucketName (gcs w))
                   (with_slash dirID) true)).
Proof.
  intros H.
  split; [exact (proj1 (proj2 (polite_downloadBucketDir_level _ _ _ _ _ _ H))) |].
  unfold downloadBucketDir_level in H.
  apply bind_Ok_inv in H as (f & w1 & H1 & H).
  apply bind_Ok_inv in H as (u & w2 & H2 & H).
  apply bind_Ok_inv in H as (dirID' & w3 & H3 & H).
  apply bind_Ok_inv in H as (files & w4 & H4 & H).
  apply bind_Ok_inv in H as (u' & w5 & H5 & H).
  assert (Hg : gcs w5 = gcs w).
  { apply polite_get_fs in H1 as (_ & G1 & _).
    assert (G2 : gcs w2 = gcs w1).
    { destruct (negb (path_exists f localDirPath)).
      - now apply polite_os_makedirs in H2 as (_ & G & _).
      - now inversion H2. }
    assert (G3 : gcs w3 = gcs w2).
    { destruct (str_last dirID); now inversion H3. }
    apply polite_listBucketEntries in H4 as (_ & G4 & _).
    apply polite_for_loop in H5 as (_ & G5 & _);
      [| intros x; apply polite_downloadBucketFile].
    congruence. }
  assert (Hd : dirID' = with_slash dirID).
  { unfold with_slash, ends_with_slash.
    destruct (str_last dirID) as [c|]; [| discriminate].
    inversion H3; subst. now destruct (Ascii.eqb c slash). }
  apply listBucketEntries_dirs in H. now rewrite Hg, Hd in H.
Qed.

Lemma for_each_returns {S A} (body : A -> World S -> option (Result unit * World S))
    (P : World S -> Prop) (l : list A) :
  (forall x w, In x l -> P w ->
     exists r w', body x w = Some (r, w') /\ P w') ->
  forall w, P w -> exists r w', for_each body l w = Some (r, w').
Proof.
  induction l as [|x l IH]; intros Hb w Hw; simpl; [eauto |].
  destruct (Hb x w (or_introl eq_refl) Hw) as ([u|e] & w1 & -> & Hw1); [| eauto].
  apply IH; [| exact Hw1]. intros y w2 Hy. apply Hb. now right.
Qed.

(** Fuel beyond what is left of the longest name is enough. *)
Lemma downloadBucketDir_returns {S} (bucketName : string)
    (g : list (string * list Blob)) :
  acyclic (bucket_blobs bucketName g) ->
  forall (fuel : nat) (dirID localDirPath : string) (w : World S),
    gcs w = g ->
    (max_name_length (bucket_blobs bucketName g)
       - String.length (with_slash dirID) < fuel)%nat ->
    exists r w',
      downloadBucketDir fuel bucketName dirID localDirPath w = Some (r, w') /\
      gcs w' = g.
Proof.
  intros Hac. induction fuel as [|fuel IH]; intros dirID localDirPath w Hg Hlt;
    [lia |].
  simpl.
  destruct (downloadBucketDir_level bucketName dirID localDirPath w)
    as [[dirs|e] w1] eqn:E.
  - apply downloadBucketDir_level_dirs in E as [Hg1 Hdirs].
    rewrite Hg in Hdirs.
    assert (Hall : forall d (w2 : World S), In d dirs -> gcs w2 = g ->
              exists r w', downloadBucketDir fuel bucketName d
                             (os_path_join localDirPath (last_segment d)) w2
                           = Some (r, w') /\ gcs w' = g).
    { intros d w2 Hd Hw2. apply IH; [exact Hw2 |].
      rewrite Hdirs in Hd.
      destruct (Hac _ _ (with_slash_ends dirID) Hd) as [_ Hlen].
      destruct (listed_dir_short _ _ _ Hd) as [_ Hmax].
      pose proof (with_slash_length d). lia. }
    destruct (for_each_returns
                (fun d w => downloadBucketDir fuel bucketName d
                              (os_path_join localDirPath (last_segment d)) w)
                (fun w => gcs w = g) dirs Hall w1 ltac:(congruence))
      as (r & w' & Hr).
    exists r, w'. split; [exact Hr |].
    assert (Hp : polite_step w1 w').
    { eapply for_each_polite; [| exact Hr].
      intros d w2 r2 w3 _ H2. exact (downloadBucketDir_polite _ _ _ _ _ _ _ H2). }
    destruct Hp as (_ & Hg2 & _). congruence.
  - exists (Raise e), w1. split; [reflexivity |].
    apply polite_downloadBucketDir_level in E as (_ & G & _). congruence.
Qed.

(** C9: over an acyclic hierarchy, every directory [downloadBucketDir]
    recurses into lies strictly deeper than the prefix it was listed under,
    and the recursion ends: with fuel beyond the length of the longest
    object name, [downloadBucketDir] returns (a result or an exception). *)
Theorem downloadBucketDir_terminates {S} (bucketName dirID localDirPath : string)
    (w : World S) :
  acyclic (bucket_blobs bucketName (gcs w)) ->
  (forall d,
     In d (List.map drop_last
             (snd (list_blobs_of (bucket_blobs bucketName (gcs w))
                     (with_slash dirID) true))) ->
     strictly_extends (with_slash d) (with_slash dirID)) /\
  (forall fuel,
     (max_name_length (bucket_blobs bucketName (gcs w)) < fuel)%nat ->
     exists r w',
       downloadBucketDir fuel bucketName dirID localDirPath w = Some (r, w')).
Proof.
  intros Hac. split.
  - intros d Hd.
    destruct (Hac _ _ (with_slash_ends dirID) Hd) as [_ Hlen].
    destruct (listed_dir_inv _ _ _ Hd) as (b & seg & rest & _ & _ & ->).
    set (p := with_slash dirID) in *. split.
    + unfold with_slash.
      destruct (ends_with_slash (p +:+ seg)).
      * apply starts_with_app.
      * rewrite app_assoc_str. apply starts_with_app.
    + pose proof (with_slash_length (p +:+ seg)). lia.
  - intros fuel Hf.
    destruct (downloadBucketDir_returns bucketName (gcs w) Hac fuel dirID
                localDirPath w eq_refl ltac:(lia)) as (r & w' & Hr & _).
    eauto.
Qed.

Lemma downloadBucketDir_terminates_witness :
  let w : World unit := mkWorld tt (tree_bucket "one" "two") ∅ [] in
  (forall d,
     In d (List.map drop_last
             (snd (list_blobs_of (bucket_blobs "bkt" (gcs w)) (with_slash "a") true))) ->
     strictly_extends (with_slash d) (with_slash "a")) /\
  (forall fuel,
     (max_name_length (bucket_blobs "bkt" (gcs w)) < fuel)%nat ->
     exists r w', downloadBucketDir fuel "bkt" "a" "L" w = Some (r, w')).
Proof.
  intros w.
  apply (downloadBucketDir_terminates "bkt" "a" "L" w).
  apply no_double_slash_acyclic. vm_compute. reflexivity.
Defined.

(** With an empty directory name in the bucket ([a//x]) the hierarchy is
    not acyclic in this sense: under [a/] the listing shows [a/] again. *)
Example empty_directory_name_not_acyclic :
  ~ acyclic [mkBlob "a//x" "one"] /\
  downloadBucketDir 100 "bkt" "a" "L"
    (mkWorld tt [("bkt", [mkBlob "a//x" "one"])] ∅ []) = None.
Proof.
  split.
  - intros H. destruct (H "a/" "a/" eq_refl) as [_ Hlen].
    + vm_compute. now left.
    + simpl in Hlen. lia.
  - vm_compute. reflexivity.
Qed.

(** * Further properties *)

(** ** PathCodec *)

Lemma str_forallb_app (f : ascii -> bool) (a b : string) :
  str_forallb f (a +:+ b) = str_forallb f a && str_forallb f b.
Proof.
  induction a as [|c a IH]; [reflexivity |].
  simpl. now rewrite IH, andb_assoc.
Qed.

Lemma app_not_empty_l (a b : string) : a <> "" -> a +:+ b <> "".
Proof. destruct a; [congruence | discriminate]. Qed.

(** X1: one trailing slash of the key is stripped: for a container
    matching [[a-z0-9_.-]+] and a non-empty key [n] without newline,
    [gs://c/n/] parses to the container [c] and the name [n]. *)
Theorem parseGCSPath_strips_one_slash (c n : string) :
  bucket_ok c -> n <> "" -> str_forallb is_dot_char n = true ->
  parseGCSPath (repackGCSPath c (n +:+ "/")) = Some (mkGCSPath c n).
Proof.
  intros [Hc0 Hc] Hn0 Hn.
  assert (Hm : GS_URL_match (repackGCSPath c (n +:+ "/")) c (n +:+ "/")).
  { exists "". unfold repackGCSPath. rewrite app_empty_r.
    repeat split; auto.
    - now apply app_not_empty_l.
    - rewrite str_forallb_app, Hn. reflexivity. }
  rewrite (parseGCSPath_match _ _ _ Hm).
  rewrite ends_with_slash_app by discriminate.
  now rewrite drop_last_app_slash.
Qed.

Lemma parseGCSPath_strips_one_slash_witness :
  parseGCSPath (repackGCSPath "b-1" ("a/b" +:+ "/")) = Some (mkGCSPath "b-1" "a/b").
Proof.
  apply parseGCSPath_strips_one_slash.
  - split; [discriminate | reflexivity].
  - discriminate.
  - reflexivity.
Defined.

(** X2: [parseGCSPath] succeeds exactly on the strings that the pattern
    matches, [gs://], a non-empty container within [[a-z0-9_.-]], a slash,
    a non-empty key without newline, and at most one final newline; on
    every other string, so on every local path, it returns [None]. *)
Theorem parseGCSPath_succeeds_iff (path : string) :
  (exists r, parseGCSPath path = Some r) <->
  (exists b key, GS_URL_match path b key).
Proof.
  split.
  - intros [r H]. destruct (parseGCSPath_Some _ _ H) as (key & Hm & _). eauto.
  - intros (b & key & Hm). rewrite (parseGCSPath_match _ _ _ Hm). eauto.
Qed.

(** X3: a parsed path is in normal form: when [parseGCSPath p] gives a
    non-empty name without trailing slash, repacking and parsing again
    gives the same container and name. *)
Theorem parse_repack_parse (p : string) (r : GCSPath) :
  parseGCSPath p = Some r ->
  name r <> "" -> ends_with_slash (name r) = false ->
  parseGCSPath (repackGCSPath (bucket r) (name r)) = Some r.
Proof.
  intros Hp Hn0 Hns.
  destruct (parseGCSPath_Some _ _ Hp) as (key & Hm & Hname).
  destruct Hm as (tail & _ & Hb0 & Hb & Hk0 & Hk & _).
  assert (Hdot : str_forallb is_dot_char (name r) = true).
  { rewrite Hname. destruct (ends_with_slash key) eqn:E; [| exact Hk].
    unfold ends_with_slash in E.
    destruct (str_last key) as [c|] eqn:El; [| discriminate].
    rewrite (drop_last_snoc _ _ El), str_forallb_app in Hk.
    now apply andb_true_iff in Hk as [Hk _]. }
  assert (Hm : GS_URL_match (repackGCSPath (bucket r) (name r)) (bucket r) (name r)).
  { exists "". unfold repackGCSPath. rewrite app_empty_r. repeat split; auto. }
  rewrite (parseGCSPath_match _ _ _ Hm), Hns. now destruct r.
Qed.

Lemma parse_repack_parse_witness :
  parseGCSPath (repackGCSPath (bucket (mkGCSPath "b" "x/y")) (name (mkGCSPath "b" "x/y")))
    = Some (mkGCSPath "b" "x/y").
Proof.
  apply (parse_repack_parse "gs://b/x/y/" (mkGCSPath "b" "x/y")).
  - reflexivity.
  - discriminate.
  - reflexivity.
Defined.

Example parse_repack_parse_double_slash :
  parseGCSPath "gs://b/x//" = Some (mkGCSPath "b" "x/") /\
  parseGCSPath (repackGCSPath "b" "x/") = Some (mkGCSPath "b" "x").
Proof. split; reflexivity. Qed.

(** ** Drive listings *)

Lemma driveListFilesQueryWithNextToken_RetryGate {S} (service : DriveService S)
    (parentID : string) (customQuery pageToken : option string) (w : World S) :
  driveListFilesQueryWithNextToken service parentID customQuery pageToken w =
  RetryGate (EvFilesList (list_param parentID customQuery pageToken))
    (files_list service (list_param parentID customQuery pageToken))
    (fun results => (default [] (files results), nextPageToken results))
    (fun k e => ("Error listing drive. %d retries left. %s",
                 [ArgD (Z.of_nat k); ArgExn e]))
    "Too many list failures" 5 w.
Proof.
  unfold driveListFilesQueryWithNextToken.
  rewrite driveListFilesQueryWithNextToken_loop_RetryGate.
  unfold list_param. destruct customQuery as [cq|]; [| reflexivity].
  destruct (str_truthy cq); reflexivity.
Qed.

Lemma driveListFilesQueryWithNextToken_gives_up {S} (service : DriveService S)
    (parentID : string) (customQuery pageToken : option string) (w : World S)
    (d' : S) :
  all_fail (files_list service (list_param parentID customQuery pageToken))
    5 (drive w) = Some d' ->
  gave_up (driveListFilesQueryWithNextToken service parentID customQuery
             pageToken w) w d'.
Proof.
  intros H. unfold gave_up.
  rewrite driveListFilesQueryWithNextToken_RetryGate.
  destruct (RetryGate_exhausted
              (EvFilesList (list_param parentID customQuery pageToken))
              (files_list service (list_param parentID customQuery pageToken))
              (fun results => (default [] (files results), nextPageToken results))
              (fun k e => ("Error listing drive. %d retries left. %s",
                           [ArgD (Z.of_nat k); ArgExn e]))
              "Too many list failures" eq_refl 5%nat w d' H)
    as (evs & Hr & Hi & Hs).
  exists evs. split; [exact Hr |]. split; [exact Hi |].
  unfold total_delay. rewrite Hs. now split.
Qed.

Lemma driveListFilesQueryWithNextToken_first_answer {S}
    (service : DriveService S) (parentID : string)
    (customQuery pageToken : option string) (w : World S)
    (results : ListResults) (d' : S) :
  files_list service (list_param parentID customQuery pageToken) (drive w)
    = (Ok results, d') ->
  driveListFilesQueryWithNextToken service parentID customQuery pageToken w =
    (Ok (Some (items_of results, nextPageToken results)),
     mkWorld d' (gcs w) (fs w)
       (trace w ++ [EvFilesList (list_param parentID customQuery pageToken)])).
Proof.
  intros H. rewrite driveListFilesQueryWithNextToken_RetryGate.
  now rewrite (RetryGate_ok_step _ _ _ _ _ 4 w results d' H).
Qed.

(** X4: the listing call is retried like the others: when every attempt
    raises, [driveListFilesQueryWithNextToken] makes five calls, sleeps
    four times five seconds and returns [None]; when the first attempt
    answers, it makes that one call and returns the items of the answer
    (none when the answer has no [files] key) with its page token. *)
Theorem driveListFilesQueryWithNextToken_retry {S} (service : DriveService S)
    (parentID : string) (customQuery pageToken : option string) (w : World S) :
  (forall d',
     all_fail (files_list service (list_param parentID customQuery pageToken))
       5 (drive w) = Some d' ->
     gave_up (driveListFilesQueryWithNextToken service parentID customQuery
                pageToken w) w d') /\
  (forall results d',
     files_list service (list_param parentID customQuery pageToken) (drive w)
       = (Ok results, d') ->
     driveListFilesQueryWithNextToken service parentID customQuery pageToken w =
       (Ok (Some (items_of results, nextPageToken results)),
        mkWorld d' (gcs w) (fs w)
          (trace w ++ [EvFilesList (list_param parentID customQuery pageToken)]))).
Proof.
  split.
  - intros d' H. now apply driveListFilesQueryWithNextToken_gives_up.
  - intros results d' H. now apply driveListFilesQueryWithNextToken_first_answer.
Qed.

Lemma driveListFilesQueryWithNextToken_retry_witness :
  gave_up (driveListFilesQueryWithNextToken scripted "folder" None None
             (example_world (mkScript [] [] [])))
    (example_world (mkScript [] [] [])) (mkScript [] [] []) /\
  driveListFilesQueryWithNextToken scripted "folder" None None
    (example_world (mkScript [Ok (mkListResults None (Some "t2"))] [] [])) =
  (Ok (Some ([], Some "t2")),
   mkWorld (mkScript [] [] []) [] {[ "img/cam1.jpg" := File "jpeg" ]}
     [EvFilesList (list_param "folder" None None)]).
Proof.
  split.
  - apply (proj1 (driveListFilesQueryWithNextToken_retry scripted "folder" None
                    None (example_world (mkScript [] [] [])))).
    reflexivity.
  - apply (proj2 (driveListFilesQueryWithNextToken_retry scripted "folder" None
                    None (example_world (mkScript [Ok (mkListResults None (Some "t2"))]
                                           [] [])))
             (mkListResults None (Some "t2")) (mkScript [] [] [])).
    reflexivity.
Defined.

(** X5: a listing that gives up is not reported as an empty listing: the
    [None] it returns is unpacked by [driveListFilesQuery], so the search
    by name raises a [TypeError], and so do [downloadFile], which writes
    no local file, and [getDirForClassCamera]. *)
Theorem listing_failure_raises {S} (service : DriveService S)
    (parentID nm localFilePath imgClass : string)
    (classLocations : gmap string string) (w : World S) (d' : S) :
  all_fail (files_list service (list_param parentID (name_query (Some nm)) None))
    5 (drive w) = Some d' ->
  classLocations !! imgClass = Some parentID ->
  exists w',
    drive w' = d' /\ fs w' = fs w /\
    driveListFilesByName service parentID (Some nm) w = (Raise unpack_None, w') /\
    downloadFile service parentID nm localFilePath w = (Raise unpack_None, w') /\
    getDirForClassCamera service classLocations imgClass nm w
      = (Raise unpack_None, w').
Proof.
  intros H Hc.
  destruct (driveListFilesQueryWithNextToken_gives_up service parentID
              (name_query (Some nm)) None w d' H)
    as (evs & Hr & _).
  assert (Hl : driveListFilesByName service parentID (Some nm) w
               = (Raise unpack_None,
                  mkWorld d' (gcs w) (fs w) (trace w ++ evs))).
  { unfold driveListFilesByName, driveListFilesQuery, bind.
    fold (name_query (Some nm)). now rewrite Hr. }
  eexists. split; [| split; [| split; [exact Hl | split]]]; try reflexivity.
  - unfold downloadFile, bind. now rewrite Hl.
  - unfold getDirForClassCamera, dict_get. rewrite Hc.
    unfold bind at 1. unfold ret at 1. unfold bind at 1. now rewrite Hl.
Qed.

Lemma listing_failure_raises_witness :
  let w := example_world (mkScript [] [] [("id-1", "first")]) in
  exists w',
    drive w' = mkScript [] [] [("id-1", "first")] /\ fs w' = fs w /\
    driveListFilesByName scripted "folder" (Some "cam1") w = (Raise unpack_None, w') /\
    downloadFile scripted "folder" "cam1" "out.jpg" w = (Raise unpack_None, w') /\
    getDirForClassCamera scripted {[ "smoke" := "folder" ]} "smoke" "cam1" w
      = (Raise unpack_None, w').
Proof.
  intros w.
  apply (listing_failure_raises scripted "folder" "cam1" "out.jpg" "smoke"
           {[ "smoke" := "folder" ]} w (mkScript [] [] [("id-1", "first")])).
  - reflexivity.
  - vm_compute. reflexivity.
Defined.

(** ** Paginator: completeness *)

Lemma searchFiles_page {S} (service : DriveService S) (parentID : string)
    (minTime maxTime pfx npt : option string) (w : World S)
    (p : ListResults) (s' : S) :
  opt_truthy npt = true ->
  files_list service
    (list_param parentID (Some (search_query minTime maxTime pfx)) (sent_token npt))
    (drive w) = (Ok p, s') ->
  searchFiles service parentID minTime maxTime pfx npt w =
  (Ok (Paged (Some (items_of p, nextPageToken p))),
   mkWorld s' (gcs w) (fs w)
     (trace w ++ [EvFilesList
                    (list_param parentID (Some (search_query minTime maxTime pfx))
                       (sent_token npt))])).
Proof.
  intros Ht Hp. unfold searchFiles. rewrite Ht.
  fold (search_query minTime maxTime pfx). fold (sent_token npt).
  unfold bind.
  now rewrite (driveListFilesQueryWithNextToken_first_answer service parentID
                 (Some (search_query minTime maxTime pfx)) (sent_token npt) w
                 p s' Hp).
Qed.

Lemma searchAllFiles_loop_complete {S} (service : DriveService S)
    (parentID : string) (minTime maxTime pfx : option string)
    (npt : option string) (s : S) (pages : list ListResults) (s' : S) :
  serves service parentID (search_query minTime maxTime pfx) npt s pages s' ->
  forall (fuel : nat) (allItems : list DriveItem) (w : World S),
    opt_truthy npt = true -> drive w = s -> (length pages <= fuel)%nat ->
    exists evs,
      searchAllFiles_loop fuel service parentID minTime maxTime pfx allItems npt w
        = Some (Ok (allItems ++ concat (List.map items_of pages)),
                mkWorld s' (gcs w) (fs w) (trace w ++ evs)) /\
      invocations evs = length pages /\ sleeps evs = [].
Proof.
  induction 1 as [npt s p s' Hp Hlast | npt s p s1 rest s' Hp Hmore Hrest IH];
    intros fuel allItems w Ht Hw Hf; subst s.
  - destruct fuel as [|fuel]; [simpl in Hf; lia |].
    simpl. rewrite Ht. unfold bind at 1.
    rewrite (searchFiles_page _ _ _ _ _ _ _ _ _ Ht Hp). simpl.
    destruct fuel; simpl; rewrite Hlast;
      (eexists [_]; split; [now rewrite app_nil_r | now split]).
  - destruct fuel as [|fuel]; [simpl in Hf; lia |].
    simpl. rewrite Ht. unfold bind at 1.
    rewrite (searchFiles_page _ _ _ _ _ _ _ _ _ Ht Hp).
    cbn [unpack_listing unpack_pair ret].
    match goal with |- context [searchAllFiles_loop fuel _ _ _ _ _ ?a _ ?w1] =>
      destruct (IH fuel a w1 Hmore eq_refl ltac:(simpl in Hf; lia))
        as (evs & Hr & Hi & Hs) end.
    cbn [drive gcs fs trace] in Hr.
    exists ([EvFilesList
               (list_param parentID (Some (search_query minTime maxTime pfx))
                  (sent_token npt))] ++ evs).
    split.
    + rewrite Hr. cbn [List.map concat].
      now rewrite <- (List.app_assoc allItems), <- (List.app_assoc (trace w)).
    + rewrite invocations_app, sleeps_app, Hi, Hs. now split.
Qed.

(** X6: pagination is complete: when the backend serves the pages of a
    listing in turn, each at the first attempt, [searchAllFiles] returns the
    items of all the pages in their order, after one call for each page and
    no sleep; the first call carries no page token and each later call the
    token of the page before it. *)
Theorem searchAllFiles_complete {S} (service : DriveService S)
    (parentID : string) (minTime maxTime pfx : option string)
    (w : World S) (pages : list ListResults) (s' : S) (fuel : nat) :
  serves service parentID (search_query minTime maxTime pfx) (Some "init")
    (drive w) pages s' ->
  (length pages <= fuel)%nat ->
  exists evs,
    searchAllFiles fuel service parentID minTime maxTime pfx w
      = Some (Ok (concat (List.map items_of pages)),
              mkWorld s' (gcs w) (fs w) (trace w ++ evs)) /\
    invocations evs = length pages /\ sleeps evs = [].
Proof.
  intros Hs Hf. unfold searchAllFiles.
  exact (searchAllFiles_loop_complete service parentID minTime maxTime pfx _ _ _ _
           Hs fuel [] w eq_refl eq_refl Hf).
Qed.

Lemma searchAllFiles_complete_witness :
  let w := example_world (mkScript [Ok page1; Ok page2] [] []) in
  exists evs,
    searchAllFiles 2 scripted "folder" None None (Some "cam1") w
      = Some (Ok (concat (List.map items_of [page1; page2])),
              mkWorld (mkScript [] [] []) (gcs w) (fs w) (trace w ++ evs)) /\
    invocations evs = length [page1; page2] /\ sleeps evs = [].
Proof.
  intros w.
  apply (searchAllFiles_complete scripted "folder" None None (Some "cam1") w
           [page1; page2] (mkScript [] [] []) 2).
  - eapply serves_more; [reflexivity | reflexivity |].
    eapply serves_last; reflexivity.
  - simpl. lia.
Defined.

(** ** Downloads and uploads by ID *)



(** X8: [uploadFile] opens the local file before its retry loop: when
    the path names no local file, the [OSError] of [MediaFileUpload] is
    passed on at once, with no remote call, no retry and no sleep. *)
Theorem uploadFile_missing_file {S} (service : DriveService S)
    (dirID localFilePath : string) (w : World S) :
  path_isfile (fs w) localFilePath = false ->
  exists msg, uploadFile service dirID localFilePath w = (Raise (OSError msg), w).
Proof.
  intros H. eexists. unfold uploadFile, MediaFileUpload, bind, get_fs.
  rewrite H. reflexivity.
Qed.

Lemma uploadFile_missing_file_witness :
  exists msg,
    uploadFile scripted "dir" "img/other.jpg"
      (example_world (mkScript [] [Ok (mkFileResource "id-7")] []))
    = (Raise (OSError msg),
       example_world (mkScript [] [Ok (mkFileResource "id-7")] [])).
Proof.
  apply uploadFile_missing_file. vm_compute. reflexivity.
Defined.

(** X9: [downloadClassImage] answers from the local directory when it
    can: if [outputDirectory/fileName] is a local file, it returns that
    path and does nothing else; and whenever it returns, what it returns
    is that path. *)
Theorem downloadClassImage_cached {S}
    (parseFilename : string -> option (gmap string string))
    (service : DriveService S) (classLocations : gmap string string)
    (imgClass fileName outputDirectory : string) (w : World S) :
  (path_isfile (fs w) (os_path_join outputDirectory fileName) = true ->
   downloadClassImage parseFilename service classLocations imgClass fileName
     outputDirectory w = (Ok (os_path_join outputDirectory fileName), w)) /\
  (forall p w',
     downloadClassImage parseFilename service classLocations imgClass fileName
       outputDirectory w = (Ok p, w') ->
     p = os_path_join outputDirectory fileName).
Proof.
  split.
  - intros H. unfold downloadClassImage, bind, get_fs. now rewrite H.
  - intros p w'. unfold downloadClassImage. unfold bind at 1. unfold get_fs.
    destruct (path_isfile (fs w) (os_path_join outputDirectory fileName)).
    + now intros [= <- _].
    + intros H.
      apply bind_Ok_inv in H as (cam & w1 & _ & H).
      apply bind_Ok_inv in H as ([dirID dirName] & w2 & _ & H).
      apply bind_Ok_inv in H as (u & w3 & _ & H).
      now inversion H.
Qed.

Lemma downloadClassImage_cached_witness :
  let w := example_world (mkScript [] [] []) in
  downloadClassImage (fun _ => None) scripted ∅ "smoke" "cam1.jpg" "img" w
    = (Ok (os_path_join "img" "cam1.jpg"), w) /\
  (forall p w',
     downloadClassImage (fun _ => None) scripted ∅ "smoke" "cam1.jpg" "img" w
       = (Ok p, w') ->
     p = os_path_join "img" "cam1.jpg").
Proof.
  intros w.
  destruct (downloadClassImage_cached (fun _ => None) scripted ∅ "smoke"
              "cam1.jpg" "img" w) as [H1 H2].
  split; [apply H1; vm_compute; reflexivity | exact H2].
Defined.

(** ** ObjectStore and TreeSync *)

Lemma write_file_Ok_inv {S} (p content : string) (w w' : World S) (u : unit) :
  write_file p content w = (Ok u, w') ->
  w' = mkWorld (drive w) (gcs w) (<[p := File content]> (fs w)) (trace w) /\
  p <> "" /\ ends_with_slash p = false.
Proof.
  unfold write_file, bind, get_fs, raise, set_fs.
  destruct p as [|c p]; [intros H; discriminate H |].
  cbn [str_truthy negb orb].
  destruct (ends_with_slash (String c p)); [intros H; discriminate H |].
  destruct (fs w !! String c p) as [[x|]|];
    try (intros H; discriminate H);
    (destruct (parent_is_dir (fs w) (String c p));
     [| intros H; discriminate H]);
    intros H; inversion H; subst; repeat split; discriminate.
Qed.

Lemma write_file_raises {S} (p content : string) (w : World S) :
  ends_with_slash p = true ->
  write_file p content w = (Raise (OSError "IsADirectoryError"), w).
Proof.
  intros H. unfold write_file, bind, get_fs. rewrite H.
  now rewrite orb_true_r.
Qed.

Lemma downloadBucketFile_Ok_file {S} (bucketName fileID localFilePath : string)
    (w w' : World S) (u : unit) :
  downloadBucketFile bucketName fileID localFilePath w = (Ok u, w') ->
  path_isfile (fs w') localFilePath = true /\
  (path_isfile (fs w) localFilePath = false ->
   exists b,
     In b (bucket_blobs bucketName (gcs w)) /\ blob_name b = fileID /\
     fs w' !! localFilePath = Some (File (blob_content b))).
Proof.
  intros H. unfold downloadBucketFile, bind, get_fs in H.
  destruct (path_isfile (fs w) localFilePath) eqn:Hf.
  - inversion H; subst. split; [exact Hf | discriminate].
  - unfold blob_download_to_filename, bind, emit in H. cbn [gcs] in H.
    unfold bucket_blobs.
    destruct (find_bucket bucketName (gcs w)) as [blobs|]; [| discriminate].
    destruct (List.find _ blobs) as [b|] eqn:Eb; [| discriminate].
    apply write_file_Ok_inv in H as (-> & Hp & Hs).
    apply List.find_some in Eb as [Hin Hn]. apply String.eqb_eq in Hn.
    cbn [fs]. split.
    + unfold path_isfile. rewrite (fs_key_id _ Hs), Hs.
      now rewrite lookup_insert_eq.
    + intros _. exists b. repeat split; auto. now rewrite lookup_insert_eq.
Qed.

(** X10: [downloadBucketFile] is idempotent: after a call that returned,
    the local path is a file, and a second call changes nothing (it makes
    no request); when the first call did fetch, the file holds the content
    of the object of that name. *)
Theorem downloadBucketFile_idempotent {S} (bucketName fileID localFilePath : string)
    (w w' : World S) (u : unit) :
  downloadBucketFile bucketName fileID localFilePath w = (Ok u, w') ->
  path_isfile (fs w') localFilePath = true /\
  downloadBucketFile bucketName fileID localFilePath w' = (Ok tt, w') /\
  (path_isfile (fs w) localFilePath = false ->
   exists b,
     In b (bucket_blobs bucketName (gcs w)) /\ blob_name b = fileID /\
     fs w' !! localFilePath = Some (File (blob_content b))).
Proof.
  intros H.
  destruct (downloadBucketFile_Ok_file _ _ _ _ _ _ H) as [H1 H2].
  split; [exact H1 |]. split; [| exact H2].
  now apply downloadBucketFile_skips.
Qed.

Lemma downloadBucketFile_idempotent_witness :
  let w : World unit := mkWorld tt (tree_bucket "one" "two") {[ "L" := Dir ]} [] in
  let w' : World unit :=
    mkWorld tt (tree_bucket "one" "two") {[ "L" := Dir; "L/f1" := File "one" ]}
      [EvBlobDownload "bkt" "a/f1" "L/f1"] in
  path_isfile (fs w') "L/f1" = true /\
  downloadBucketFile "bkt" "a/f1" "L/f1" w' = (Ok tt, w') /\
  (path_isfile (fs w) "L/f1" = false ->
   exists b,
     In b (bucket_blobs "bkt" (gcs w)) /\ blob_name b = "a/f1" /\
     fs w' !! "L/f1" = Some (File (blob_content b))).
Proof.
  intros w w'.
  apply (downloadBucketFile_idempotent "bkt" "a/f1" "L/f1" w w' tt).
  vm_compute. reflexivity.
Defined.

(** X11: [downloadBucketDir] cannot take the empty [dirID] (the root of
    the bucket): it raises, lists nothing and fetches nothing; when the
    local directory is there already, the exception is the [IndexError] of
    [dirID[-1]] and the world is left as it was. *)
Theorem downloadBucketDir_empty_dirID {S} (fuel : nat)
    (bucketName localDirPath : string) (w : World S) :
  (exists e w',
     downloadBucketDir (Datatypes.S fuel) bucketName "" localDirPath w
       = Some (Raise e, w') /\
     trace w' = trace w) /\
  (path_exists (fs w) localDirPath = true ->
   downloadBucketDir (Datatypes.S fuel) bucketName "" localDirPath w
     = Some (Raise (IndexError "string index out of range"), w)).
Proof.
  split.
  - cbn [downloadBucketDir]. unfold downloadBucketDir_level.
    unfold bind at 1. unfold get_fs at 1.
    destruct (negb (path_exists (fs w) localDirPath)).
    + unfold bind at 1.
      destruct (os_makedirs localDirPath w) as [[u|e] w1] eqn:E.
      * exists (IndexError "string index out of range"), w1.
        split; [reflexivity |].
        unfold os_makedirs, bind, get_fs in E.
        destruct (make_ancestors _ _); [| discriminate E].
        destruct (_ || _); [discriminate E |]. now inversion E.
      * exists e, w1. split; [reflexivity |].
        unfold os_makedirs, bind, get_fs in E.
        destruct (make_ancestors _ _); [| now inversion E].
        destruct (_ || _); now inversion E.
    + eexists _, w. split; reflexivity.
  - intros H. cbn [downloadBucketDir]. unfold downloadBucketDir_level.
    unfold bind at 1. unfold get_fs at 1. rewrite H. reflexivity.
Qed.

Lemma downloadBucketDir_empty_dirID_witness :
  let w : World unit := mkWorld tt (tree_bucket "one" "two") {[ "L" := Dir ]} [] in
  downloadBucketDir 3 "bkt" "" "L" w
    = Some (Raise (IndexError "string index out of range"), w).
Proof.
  intros w.
  apply (proj2 (downloadBucketDir_empty_dirID 2 "bkt" "L" w)).
  vm_compute. reflexivity.
Defined.

Lemma str_last_snoc (s : string) (c : ascii) :
  str_last (s +:+ String c "") = Some c.
Proof. now rewrite str_last_app. Qed.

Lemma downloadBucketDir_level_slash {S} (bucketName dirID localDirPath : string)
    (w : World S) :
  dirID <> "" -> ends_with_slash dirID = false ->
  downloadBucketDir_level bucketName (dirID +:+ "/") localDirPath w =
  downloadBucketDir_level bucketName dirID localDirPath w.
Proof.
  intros Hd Hs. unfold downloadBucketDir_level.
  change (dirID +:+ "/") with (dirID +:+ String slash "").
  rewrite str_last_snoc. rewrite Ascii.eqb_refl. cbn [negb].
  unfold ends_with_slash in Hs.
  destruct (str_last dirID) as [c|] eqn:E.
  - rewrite Hs. reflexivity.
  - apply str_last_None in E. congruence.
Qed.

(** X12: a trailing slash on [dirID] makes no difference: for a non-empty
    [dirID] without trailing slash, [downloadBucketDir] does the same with
    [dirID] and with [dirID/]. *)
Theorem downloadBucketDir_trailing_slash {S} (fuel : nat)
    (bucketName dirID localDirPath : string) (w : World S) :
  dirID <> "" -> ends_with_slash dirID = false ->
  downloadBucketDir fuel bucketName (dirID +:+ "/") localDirPath w =
  downloadBucketDir fuel bucketName dirID localDirPath w.
Proof.
  intros Hd Hs. destruct fuel as [|fuel]; [reflexivity |].
  cbn [downloadBucketDir]. now rewrite downloadBucketDir_level_slash.
Qed.

Lemma downloadBucketDir_trailing_slash_witness :
  let w : World unit := mkWorld tt (tree_bucket "one" "two") ∅ [] in
  downloadBucketDir 3 "bkt" ("a" +:+ "/") "L" w = downloadBucketDir 3 "bkt" "a" "L" w.
Proof.
  intros w. apply downloadBucketDir_trailing_slash; [discriminate | reflexivity].
Defined.

Lemma last_segment_from_slash (s cur : string) :
  ends_with_slash s = true -> last_segment_from cur s = "".
Proof.
  unfold ends_with_slash. revert cur.
  induction s as [|c s IH]; intros cur H; [discriminate |].
  cbn [last_segment_from]. destruct s as [|d s].
  - simpl in H. rewrite H. reflexivity.
  - simpl in H. destruct (Ascii.eqb c slash); now apply IH.
Qed.

Lemma os_path_join_empty (a : string) :
  a <> "" -> ends_with_slash (os_path_join a "") = true.
Proof.
  intros Ha. unfold os_path_join. cbn [starts_with_slash].
  destruct a as [|c a]; [congruence |]. cbn [str_truthy negb orb].
  destruct (ends_with_slash (String c a)) eqn:E.
  - now rewrite app_empty_r.
  - now rewrite ends_with_slash_app.
Qed.

Lemma for_loop_Ok_In {S A} (body : A -> M S unit) (l : list A) :
  (forall x, polite (body x)) ->
  forall (w w' : World S) (u : unit),
    for_loop body l w = (Ok u, w') ->
    forall x, In x l ->
      exists w1 w2 u', gcs w1 = gcs w /\ body x w1 = (Ok u', w2).
Proof.
  intros Hb. induction l as [|y l IH]; intros w w' u H x Hx; [destruct Hx |].
  cbn [for_loop] in H. apply bind_Ok_inv in H as (u1 & w1 & H1 & H).
  destruct Hx as [-> | Hx].
  - exists w, w1, u1. now split.
  - destruct (IH _ _ _ H x Hx) as (wa & wb & u' & Hg & Hr).
    exists wa, wb, u'. split; [| exact Hr].
    destruct (Hb _ _ _ _ H1) as (_ & G & _). congruence.
Qed.

Lemma listBucketEntries_files_inv {S} (bucketName pfx : string) (w w' : World S)
    (names : list string) :
  listBucketEntries bucketName pfx false false w = (Ok names, w') ->
  gcs w' = gcs w /\
  exists blobs,
    find_bucket bucketName (gcs w) = Some blobs /\
    names = List.map blob_name (fst (list_blobs_of blobs pfx true)).
Proof.
  unfold listBucketEntries, list_blobs, bind, emit, ret. cbn [gcs].
  destruct (find_bucket bucketName (gcs w)) as [blobs|];
    intros H; [| discriminate H].
  inversion H; subst. split; [reflexivity |]. now exists blobs.
Qed.

Lemma strip_prefix_self (p : string) : strip_prefix p p = Some "".
Proof. rewrite <- (app_empty_r p) at 2. apply strip_prefix_app. Qed.

Lemma starts_with_self (p : string) : starts_with p p = true.
Proof. rewrite <- (app_empty_r p) at 2. apply starts_with_app. Qed.

(** X13: an object named like the directory itself (the placeholder
    [dir/] that stands for an empty folder) stops the synchronisation: it
    is listed among the files of the level, its local path is the local
    directory with a slash, and [downloadBucketDir] raises instead of
    returning. *)
Theorem downloadBucketDir_placeholder_raises {S} (fuel : nat)
    (bucketName dirID localDirPath : string) (w : World S)
    (blobs : list Blob) (b : Blob) :
  find_bucket bucketName (gcs w) = Some blobs ->
  In b blobs -> blob_name b = with_slash dirID ->
  localDirPath <> "" ->
  exists e w',
    downloadBucketDir (Datatypes.S fuel) bucketName dirID localDirPath w
      = Some (Raise e, w').
Proof.
  intros Hbk Hb Hn HL. cbn [downloadBucketDir].
  destruct (downloadBucketDir_level bucketName dirID localDirPath w)
    as [[dirs|e] w'] eqn:E; [exfalso | eauto].
  unfold downloadBucketDir_level in E.
  apply bind_Ok_inv in E as (f & w1 & H1 & E).
  apply bind_Ok_inv in E as (u & w2 & H2 & E).
  apply bind_Ok_inv in E as (dirID' & w3 & H3 & E).
  apply bind_Ok_inv in E as (names & w4 & H4 & E).
  apply bind_Ok_inv in E as (u' & w5 & H5 & _).
  assert (Hg3 : gcs w3 = gcs w).
  { apply polite_get_fs in H1 as (_ & G1 & _).
    assert (G2 : gcs w2 = gcs w1).
    { destruct (negb (path_exists f localDirPath)).
      - now apply polite_os_makedirs in H2 as (_ & G & _).
      - now inversion H2. }
    assert (G3 : gcs w3 = gcs w2).
    { destruct (str_last dirID); now inversion H3. }
    congruence. }
  assert (Hd : dirID' = with_slash dirID).
  { unfold with_slash, ends_with_slash.
    destruct (str_last dirID) as [c|]; [| discriminate H3].
    inversion H3; subst. now destruct (Ascii.eqb c slash). }
  subst dirID'.
  apply listBucketEntries_files_inv in H4 as (Hg4 & blobs' & Hbk' & ->).
  rewrite Hg3, Hbk in Hbk'. inversion Hbk'; subst blobs'.
  assert (Hin : In (with_slash dirID)
                  (List.map blob_name
                     (fst (list_blobs_of blobs (with_slash dirID) true)))).
  { apply List.in_map_iff. exists b. split; [exact Hn |].
    cbn [list_blobs_of fst]. apply List.filter_In. split.
    - apply List.filter_In. split; [exact Hb |]. rewrite Hn. apply starts_with_self.
    - unfold blob_group. now rewrite Hn, strip_prefix_self. }
  destruct (for_loop_Ok_In _ _
              (fun x => polite_downloadBucketFile bucketName x
                          (os_path_join localDirPath (last_segment x)))
              _ _ _ H5 _ Hin)
    as (wa & wb & ub & Hga & Hr).
  unfold last_segment in Hr.
  rewrite (last_segment_from_slash _ _ (with_slash_ends dirID)) in Hr.
  pose proof (os_path_join_empty localDirPath HL) as Hsl.
  unfold downloadBucketFile, bind, get_fs in Hr.
  unfold path_isfile in Hr. rewrite Hsl in Hr.
  assert (Hnf : match fs wa !! fs_key (os_path_join localDirPath "") with
                | Some (File _) => negb true
                | _ => false
                end = false).
  { destruct (fs wa !! fs_key (os_path_join localDirPath "")) as [[x|]|];
      reflexivity. }
  rewrite Hnf in Hr.
  unfold blob_download_to_filename, bind, emit in Hr. cbn [gcs] in Hr.
  rewrite Hga, Hg4, Hg3, Hbk in Hr.
  destruct (List.find _ blobs); [| discriminate Hr].
  now rewrite write_file_raises in Hr.
Qed.

Lemma downloadBucketDir_placeholder_raises_witness :
  let blobs := [mkBlob "a/" ""; mkBlob "a/f1" "one"] in
  let w : World unit := mkWorld tt [("bkt", blobs)] ∅ [] in
  exists e w', downloadBucketDir 3 "bkt" "a" "L" w = Some (Raise e, w').
Proof.
  intros blobs w.
  apply (downloadBucketDir_placeholder_raises 2 "bkt" "a" "L" w blobs (mkBlob "a/" "")).
  - reflexivity.
  - now left.
  - reflexivity.
  - discriminate.
Defined.

Example downloadBucketDir_placeholder :
  let w : World unit :=
    mkWorld tt [("bkt", [mkBlob "a/" ""; mkBlob "a/f1" "one"])] ∅ [] in
  match downloadBucketDir 3 "bkt" "a" "L" w with
  | Some (r, w') =>
      r = Raise (OSError "IsADirectoryError") /\
      fs w' = {[ "L" := Dir ]} /\
      trace w' = [EvListBlobs "bkt" "a/" "/"; EvBlobDownload "bkt" "a/" "L/"]
  | None => False
  end.
Proof. vm_compute. repeat split. Qed.

(** ** RetryGate: bounds *)

Lemma RetryGate_bounded {S A B} (ev : Event) (step : S -> Result A * S)
    (onok : A -> B) (warn : nat -> exn -> string * list PyArg) (err : string) :
  is_remote_call ev = true ->
  forall (n : nat) (w : World S),
    exists evs,
      trace (snd (RetryGate ev step onok warn err n w)) = trace w ++ evs /\
      (invocations evs <= n)%nat /\
      ((0 < n)%nat -> (1 <= invocations evs)%nat) /\
      sleeps evs = repeat 5 (invocations evs - 1).
Proof.
  intros Hev. induction n as [|n IH]; intros w.
  - eexists [_]. cbn. split; [reflexivity |]. repeat split; try lia; auto.
  - destruct (step (drive w)) as [[a|e] s'] eqn:Hs.
    + rewrite (RetryGate_ok_step ev step onok warn err n w a s' Hs).
      exists [ev]. cbn [snd trace]. unfold invocations, sleeps. cbn.
      rewrite Hev, (ev_not_sleep ev Hev). cbn. repeat split; auto; lia.
    + destruct (is_Exception e) eqn:He.
      * rewrite (RetryGate_fail_step ev step onok warn err n w e s' Hs He).
        match goal with |- context [RetryGate _ _ _ _ _ n ?w1] =>
          destruct (IH w1) as (evs & Ht & Hle & Hge & Hsl) end.
        cbn [trace] in Ht.
        exists (([ev; EvLog WARNING (fst (warn n e)) (snd (warn n e))]
                   ++ (if (0 <? Z.of_nat n) then [EvSleep 5] else [])) ++ evs).
        split; [now rewrite Ht, <- (List.app_assoc (trace w)) |].
        rewrite !invocations_app, !sleeps_app, Hsl.
        assert (Hi : invocations [ev; EvLog WARNING (fst (warn n e)) (snd (warn n e))]
                     = 1%nat).
        { unfold invocations. cbn. now rewrite Hev. }
        assert (Hz : sleeps [ev; EvLog WARNING (fst (warn n e)) (snd (warn n e))] = []).
        { unfold sleeps. cbn. now rewrite (ev_not_sleep ev Hev). }
        rewrite Hi, Hz.
        destruct n as [|n].
        -- assert (invocations evs = 0%nat) as Hz0 by lia.
           rewrite Hz0. change (0 <? Z.of_nat 0) with false.
           cbn. repeat split; lia.
        -- specialize (Hge ltac:(lia)).
           replace (0 <? Z.of_nat (Datatypes.S n)) with true
             by (symmetry; apply Z.ltb_lt; lia).
           cbn [invocations List.filter is_remote_call length sleeps omap
                  sleep_of app Nat.add].
           repeat split; try lia.
           replace (Datatypes.S (invocations evs) - 1)%nat
             with (Datatypes.S (invocations evs - 1)) by lia.
           reflexivity.
      * exists [ev]. cbn [RetryGate]. unfold try_except, bind, drive_call.
        rewrite Hs, He. cbn [snd trace]. unfold invocations, sleeps. cbn.
        rewrite Hev, (ev_not_sleep ev Hev). cbn. repeat split; try lia; auto.
Qed.

(** X14: the retry loops are bounded whatever the backend does: a call of
    [createFolder] or of [driveListFilesQueryWithNextToken] makes between
    one and five remote calls and sleeps five seconds between two
    successive calls only, so at most twenty seconds in all. *)
Theorem retry_is_bounded {S} (service : DriveService S)
    (parentID nm : string) (customQuery pageToken : option string) (w : World S) :
  (exists evs,
     trace (snd (createFolder service parentID nm w)) = trace w ++ evs /\
     (1 <= invocations evs <= 5)%nat /\
     sleeps evs = repeat retry_delay (invocations evs - 1) /\
     total_delay evs <= 4 * retry_delay) /\
  (exists evs,
     trace (snd (driveListFilesQueryWithNextToken service parentID customQuery
                   pageToken w)) = trace w ++ evs /\
     (1 <= invocations evs <= 5)%nat /\
     sleeps evs = repeat retry_delay (invocations evs - 1) /\
     total_delay evs <= 4 * retry_delay).
Proof.
  assert (Hsum : forall k, (k <= 4)%nat ->
            fold_right Z.add 0 (repeat 5 k) <= 4 * retry_delay).
  { intros k Hk. unfold retry_delay.
    do 5 (destruct k as [|k]; [cbn; lia |]). lia. }
  split.
  - unfold createFolder. rewrite createFolder_loop_RetryGate.
    match goal with |- context [RetryGate ?ev ?st ?ok ?wa ?er 5 w] =>
      destruct (RetryGate_bounded ev st ok wa er eq_refl 5 w)
        as (evs & Ht & Hle & Hge & Hsl) end.
    exists evs. split; [exact Ht |]. specialize (Hge ltac:(lia)).
    split; [lia |]. split; [exact Hsl |].
    unfold total_delay. rewrite Hsl. apply Hsum. lia.
  - rewrite driveListFilesQueryWithNextToken_RetryGate.
    match goal with |- context [RetryGate ?ev ?st ?ok ?wa ?er 5 w] =>
      destruct (RetryGate_bounded ev st ok wa er eq_refl 5 w)
        as (evs & Ht & Hle & Hge & Hsl) end.
    exists evs. split; [exact Ht |]. specialize (Hge ltac:(lia)).
    split; [lia |]. split; [exact Hsl |].
    unfold total_delay. rewrite Hsl. apply Hsum. lia.
Qed.

(** ** Listings of a bucket *)

Lemma span_all (f : ascii -> bool) (s : string) :
  str_forallb f s = true -> span f s = (s, "").
Proof.
  intros H. rewrite <- (app_empty_r s) at 1. now apply span_app.
Qed.

Lemma group_prefix_None (pfx rest : string) :
  group_prefix pfx rest = None <-> str_forallb not_slash rest = true.
Proof.
  unfold group_prefix. destruct (span not_slash rest) as [seg r] eqn:E. split.
  - destruct r; [| discriminate]. intros _.
    apply span_spec in E as (-> & H & _). now rewrite app_empty_r.
  - intros H. rewrite (span_all _ _ H) in E. now inversion E.
Qed.

Lemma group_prefix_Some (pfx rest g : string) :
  group_prefix pfx rest = Some g <->
  exists seg rest',
    rest = seg +:+ String slash rest' /\ str_forallb not_slash seg = true /\
    g = pfx +:+ seg +:+ "/".
Proof.
  unfold group_prefix. destruct (span not_slash rest) as [seg r] eqn:E. split.
  - destruct r as [|c r]; [discriminate |]. intros [= <-].
    apply span_spec in E as (-> & H & Hc). simpl in Hc.
    apply not_slash_false in Hc; subst c. now exists seg, r.
  - intros (seg' & rest' & -> & Hs & ->).
    rewrite (span_app not_slash seg' (String slash rest') Hs) in E
      by reflexivity.
    now inversion E.
Qed.

Lemma map_filter_names (pfx : string) (l : list Blob) :
  List.map blob_name (List.filter (fun b => starts_with pfx (blob_name b)) l)
  = List.filter (starts_with pfx) (List.map blob_name l).
Proof.
  induction l as [|b l IH]; [reflexivity |].
  cbn. destruct (starts_with pfx (blob_name b)); cbn; now rewrite IH.
Qed.

(** X15: what [listBucketEntries] lists, for an existing bucket.  Deep:
    the names of all the objects that start with the prefix, in the order
    of the bucket.  Files of a level: the names that are the prefix followed
    by a rest without slash.  Directories of a level: the strings [prefix
    seg], for [seg] without slash, such that some object is named [prefix
    seg / ...]; each is listed without its final slash. *)
Theorem listBucketEntries_lists {S} (bucketName pfx : string) (w : World S)
    (blobs : list Blob) :
  find_bucket bucketName (gcs w) = Some blobs ->
  fst (listBucketEntries bucketName pfx false true w)
    = Ok (List.filter (starts_with pfx) (List.map blob_name blobs)) /\
  (exists files,
     fst (listBucketEntries bucketName pfx false false w) = Ok files /\
     forall n,
       In n files <->
       In n (List.map blob_name blobs) /\
       exists rest, n = pfx +:+ rest /\ str_forallb not_slash rest = true) /\
  (exists dirs,
     fst (listBucketEntries bucketName pfx true false w) = Ok dirs /\
     forall d,
       In d dirs <->
       exists seg rest,
         str_forallb not_slash seg = true /\ d = pfx +:+ seg /\
         In (pfx +:+ seg +:+ String slash rest) (List.map blob_name blobs)).
Proof.
  intros Hb. split; [| split].
  - unfold listBucketEntries, list_blobs, bind, emit, ret. cbn [gcs].
    rewrite Hb. cbn [fst list_blobs_of str_truthy].
    now rewrite map_filter_names.
  - eexists. split.
    { unfold listBucketEntries, list_blobs, bind, emit, ret. cbn [gcs].
      rewrite Hb. reflexivity. }
    intros n. cbn [list_blobs_of fst]. rewrite List.in_map_iff. split.
    + intros (b & <- & Hin).
      apply List.filter_In in Hin as [Hin Hg].
      apply List.filter_In in Hin as [Hin Hs].
      split; [now apply List.in_map |].
      unfold blob_group in Hg.
      apply starts_with_strip in Hs as [rest Hr]. rewrite Hr in Hg.
      exists rest. split; [now apply strip_prefix_Some |].
      apply (group_prefix_None pfx).
      now destruct (group_prefix pfx rest).
    + intros [Hin (rest & -> & Hr)].
      apply List.in_map_iff in Hin as (b & Hn & Hin).
      exists b. split; [exact Hn |].
      apply List.filter_In. split.
      * apply List.filter_In. split; [exact Hin |].
        rewrite Hn. apply starts_with_app.
      * unfold blob_group. rewrite Hn, strip_prefix_app.
        now rewrite (proj2 (group_prefix_None pfx rest) Hr).
  - eexists. split.
    { unfold listBucketEntries, list_blobs, py_assert. cbn [negb].
      unfold bind, emit, ret. cbn [gcs]. rewrite Hb. reflexivity. }
    intros d. cbn [list_blobs_of snd]. rewrite List.in_map_iff. split.
    + intros (g & <- & Hg).
      apply list_elem_of_In, elem_of_remove_dups, list_elem_of_omap in Hg
        as (b & Hin & Hgrp).
      apply list_elem_of_In, List.filter_In in Hin as [Hin _].
      unfold blob_group in Hgrp.
      destruct (strip_prefix pfx (blob_name b)) as [rest0|] eqn:E;
        [| discriminate].
      apply strip_prefix_Some in E.
      apply group_prefix_Some in Hgrp as (seg & rest & -> & Hs & ->).
      exists seg, rest. split; [exact Hs |]. split.
      * now rewrite <- app_assoc_str, drop_last_app_slash.
      * rewrite <- E. now apply List.in_map.
    + intros (seg & rest & Hs & -> & Hin).
      apply List.in_map_iff in Hin as (b & Hn & Hin).
      exists (pfx +:+ seg +:+ "/"). split.
      * now rewrite <- app_assoc_str, drop_last_app_slash.
      * apply list_elem_of_In, elem_of_remove_dups, list_elem_of_omap.
        exists b. split.
        -- apply list_elem_of_In, List.filter_In. split; [exact Hin |].
           rewrite Hn. apply starts_with_app.
        -- unfold blob_group. rewrite Hn, strip_prefix_app.
           apply group_prefix_Some. now exists seg, rest.
Qed.

Lemma listBucketEntries_lists_witness :
  let w : World unit := mkWorld tt (tree_bucket "one" "two") ∅ [] in
  fst (listBucketEntries "bkt" "a/" false true w)
    = Ok (List.filter (starts_with "a/")
            (List.map blob_name [mkBlob "a/f1" "one"; mkBlob "a/b/f2" "two"])) /\
  (exists files,
     fst (listBucketEntries "bkt" "a/" false false w) = Ok files /\
     forall n,
       In n files <->
       In n (List.map blob_name [mkBlob "a/f1" "one"; mkBlob "a/b/f2" "two"]) /\
       exists rest, n = "a/" +:+ rest /\ str_forallb not_slash rest = true) /\
  (exists dirs,
     fst (listBucketEntries "bkt" "a/" true false w) = Ok dirs /\
     forall d,
       In d dirs <->
       exists seg rest,
         str_forallb not_slash seg = true /\ d = "a/" +:+ seg /\
         In ("a/" +:+ seg +:+ String slash rest)
           (List.map blob_name [mkBlob "a/f1" "one"; mkBlob "a/b/f2" "two"])).
Proof.
  intros w.
  apply (listBucketEntries_lists "bkt" "a/" w
           [mkBlob "a/f1" "one"; mkBlob "a/b/f2" "two"]).
  reflexivity.
Defined.

(** ** TreeSync: every object gets its local file *)

Example local_path_ex :
  local_path "L" "f1" = "L/f1" /\ local_path "L" "b/f2" = "L/b/f2" /\
  local_path "out/" "x/y/z.jpg" = "out/x/y/z.jpg".
Proof. repeat split. Qed.

Lemma last_segment_from_no_slash (rel cur : string) :
  str_forallb not_slash rel = true -> last_segment_from cur rel = cur.
Proof.
  revert cur. induction rel as [|c rel IH]; intros cur H; [reflexivity |].
  cbn in H. apply andb_true_iff in H as [Hc H].
  cbn [last_segment_from]. unfold not_slash in Hc.
  apply negb_true_iff in Hc. rewrite Hc. now apply IH.
Qed.

Lemma last_segment_from_app (p rel cur : string) :
  str_forallb not_slash rel = true ->
  last_segment_from cur (p +:+ String slash rel) = rel.
Proof.
  intros H. revert cur. induction p as [|c p IH]; intros cur.
  - cbn. now apply last_segment_from_no_slash.
  - cbn [String.append last_segment_from].
    destruct (Ascii.eqb c slash); apply IH.
Qed.

Lemma last_segment_under (pfx rel : string) :
  ends_with_slash pfx = true -> str_forallb not_slash rel = true ->
  last_segment (pfx +:+ rel) = rel.
Proof.
  intros Hp Hr. unfold ends_with_slash in Hp.
  destruct (str_last pfx) as [c|] eqn:E; [| discriminate].
  apply Ascii.eqb_eq in Hp; subst c.
  rewrite (drop_last_snoc _ _ E), app_assoc_str. cbn [String.append].
  unfold last_segment. now apply last_segment_from_app.
Qed.

Lemma local_path_from_no_slash (rel L cur : string) :
  str_forallb not_slash rel = true ->
  local_path_from L cur rel = os_path_join L (cur +:+ rel).
Proof.
  revert cur. induction rel as [|c rel IH]; intros cur H.
  - cbn. now rewrite app_empty_r.
  - cbn in H. apply andb_true_iff in H as [Hc H].
    unfold not_slash in Hc. apply negb_true_iff in Hc.
    cbn [local_path_from]. rewrite Hc, (IH _ H).
    now rewrite app_assoc_str.
Qed.

Lemma local_path_from_seg (seg rest L cur : string) :
  str_forallb not_slash seg = true ->
  local_path_from L cur (seg +:+ String slash rest)
  = local_path_from (os_path_join L (cur +:+ seg)) "" rest.
Proof.
  revert cur. induction seg as [|c seg IH]; intros cur H.
  - cbn. now rewrite app_empty_r.
  - cbn in H. apply andb_true_iff in H as [Hc H].
    unfold not_slash in Hc. apply negb_true_iff in Hc.
    cbn [String.append local_path_from]. rewrite Hc, (IH _ H).
    now rewrite app_assoc_str.
Qed.

Lemma no_slash_not_ends (seg : string) :
  str_forallb not_slash seg = true -> ends_with_slash seg = false.
Proof.
  unfold ends_with_slash. induction seg as [|c seg IH]; [reflexivity |].
  cbn. intros H. apply andb_true_iff in H as [Hc H].
  destruct seg as [|d seg].
  - unfold not_slash in Hc. now apply negb_true_iff in Hc.
  - now apply IH.
Qed.

Lemma for_loop_Ok_step {S A} (body : A -> M S unit) (l : list A) :
  (forall x, polite (body x)) ->
  forall (w w' : World S) (u : unit),
    for_loop body l w = (Ok u, w') ->
    forall x, In x l ->
      exists w1 w2 u',
        polite_step w w1 /\ body x w1 = (Ok u', w2) /\ polite_step w2 w'.
Proof.
  intros Hb. induction l as [|y l IH]; intros w w' u H x Hx; [destruct Hx |].
  cbn [for_loop] in H. apply bind_Ok_inv in H as (u1 & w1 & H1 & H).
  destruct Hx as [-> | Hx].
  - exists w, w1, u1. split; [apply polite_step_refl |]. split; [exact H1 |].
    exact (polite_for_loop body l Hb _ _ _ H).
  - destruct (IH _ _ _ H x Hx) as (wa & wb & u' & Hp & Hr & Hq).
    exists wa, wb, u'. split; [| now split].
    eapply polite_step_trans; [exact (Hb _ _ _ _ H1) | exact Hp].
Qed.

Lemma for_each_Ok_step {S A}
    (body : A -> World S -> option (Result unit * World S)) (l : list A) :
  (forall x w r w', body x w = Some (r, w') -> polite_step w w') ->
  forall (w w' : World S) (u : unit),
    for_each body l w = Some (Ok u, w') ->
    forall x, In x l ->
      exists w1 w2 u',
        polite_step w w1 /\ body x w1 = Some (Ok u', w2) /\ polite_step w2 w'.
Proof.
  intros Hb. induction l as [|y l IH]; intros w w' u H x Hx; [destruct Hx |].
  cbn [for_each] in H.
  destruct (body y w) as [[[u1|e] w1]|] eqn:E; try discriminate H.
  destruct Hx as [-> | Hx].
  - exists w, w1, u1. split; [apply polite_step_refl |]. split; [exact E |].
    eapply for_each_polite; [| exact H]. intros; eapply Hb; eauto.
  - destruct (IH _ _ _ H x Hx) as (wa & wb & u' & Hp & Hr & Hq).
    exists wa, wb, u'. split; [| now split].
    eapply polite_step_trans; [exact (Hb _ _ _ _ E) | exact Hp].
Qed.

(** What a level that went through did: the file loop ran over the files
    listed under [dirID/], and the directories are those listed there. *)
Lemma downloadBucketDir_level_inv {S} (bucketName dirID localDirPath : string)
    (w w' : World S) (dirs : list string) (blobs : list Blob) :
  downloadBucketDir_level bucketName dirID localDirPath w = (Ok dirs, w') ->
  find_bucket bucketName (gcs w) = Some blobs ->
  exists (w4 w5 : World S) (u : unit),
    polite_step w w4 /\
    for_loop
      (fun f => downloadBucketFile bucketName f
                  (os_path_join localDirPath (last_segment f)))
      (List.map blob_name (fst (list_blobs_of blobs (with_slash dirID) true))) w4
      = (Ok u, w5) /\
    polite_step w5 w' /\
    dirs = List.map drop_last (snd (list_blobs_of blobs (with_slash dirID) true)).
Proof.
  intros E Hbk.
  destruct (downloadBucketDir_level_dirs _ _ _ _ _ _ E) as [_ Hdirs].
  unfold bucket_blobs in Hdirs. rewrite Hbk in Hdirs. cbn [default] in Hdirs.
  unfold downloadBucketDir_level in E.
  apply bind_Ok_inv in E as (f & w1 & H1 & E).
  apply bind_Ok_inv in E as (u & w2 & H2 & E).
  apply bind_Ok_inv in E as (dirID' & w3 & H3 & E).
  apply bind_Ok_inv in E as (names & w4 & H4 & E).
  apply bind_Ok_inv in E as (u' & w5 & H5 & E).
  assert (P3 : polite_step w w3).
  { eapply polite_step_trans; [exact (polite_get_fs _ _ _ H1) |].
    eapply polite_step_trans.
    - destruct (negb (path_exists f localDirPath)).
      + exact (polite_os_makedirs _ _ _ _ H2).
      + inversion H2; subst. apply polite_step_refl.
    - destruct (str_last dirID); inversion H3; subst; apply polite_step_refl. }
  assert (Hd : dirID' = with_slash dirID).
  { unfold with_slash, ends_with_slash.
    destruct (str_last dirID) as [c|]; [| discriminate H3].
    inversion H3; subst. now destruct (Ascii.eqb c slash). }
  subst dirID'.
  pose proof (polite_listBucketEntries _ _ _ _ _ _ _ H4) as P4.
  apply listBucketEntries_files_inv in H4 as (Hg4 & blobs' & Hbk' & ->).
  destruct P3 as (Pd & Pg & Pr). rewrite Pg, Hbk in Hbk'.
  inversion Hbk'; subst blobs'.
  exists w4, w5, u'. split.
  - eapply polite_step_trans; [| exact P4]. now split.
  - split; [exact H5 |]. split; [| exact Hdirs].
    exact (polite_listBucketEntries _ _ _ _ _ _ _ E).
Qed.

Lemma polite_step_isfile {S} (w w' : World S) (p : string) :
  polite_step w w' -> path_isfile (fs w) p = true -> path_isfile (fs w') p = true.
Proof. intros (_ & _ & Hf & _). now apply path_isfile_mono. Qed.

(** After a normal return, every object under [dirID/] has its local
    file, in a bucket without doubled slashes. *)
Lemma downloadBucketDir_every_object {S} (fuel : nat)
    (bucketName dirID localDirPath : string) (w w' : World S) (u : unit)
    (blobs : list Blob) :
  downloadBucketDir fuel bucketName dirID localDirPath w = Some (Ok u, w') ->
  find_bucket bucketName (gcs w) = Some blobs ->
  forallb (fun b => negb (has_double_slash (blob_name b))) blobs = true ->
  forall b rel,
    In b blobs -> blob_name b = with_slash dirID +:+ rel ->
    path_isfile (fs w') (local_path localDirPath rel) = true.
Proof.
  revert dirID localDirPath w w' u.
  induction fuel as [|fuel IH]; intros dirID L w w' u H Hbk Hnd b rel Hb Hn;
    [discriminate H |].
  cbn [downloadBucketDir] in H.
  destruct (downloadBucketDir_level bucketName dirID L w) as [[dirs|e] w1] eqn:E;
    [| discriminate H].
  destruct (downloadBucketDir_level_inv _ _ _ _ _ _ _ E Hbk)
    as (w4 & w5 & u5 & P4 & Hloop & P5 & ->).
  pose proof (with_slash_ends dirID) as Hpe.
  set (pfx := with_slash dirID) in *.
  assert (Hrec : forall x (wa : World S) r wb,
            downloadBucketDir fuel bucketName x
              (os_path_join L (last_segment x)) wa = Some (r, wb) ->
            polite_step wa wb).
  { intros x wa r wb Hx. exact (downloadBucketDir_polite _ _ _ _ _ _ _ Hx). }
  assert (P1 : polite_step w1 w').
  { eapply for_each_polite; [| exact H]. intros x wa r wb _. apply Hrec. }
  destruct (span not_slash rel) as [seg r] eqn:Es.
  apply span_spec in Es as (Hrel & Hseg & Hr).
  destruct r as [|c rest].
  - (* a file of this level *)
    rewrite app_empty_r in Hrel. subst seg.
    assert (Hin : In (blob_name b)
                    (List.map blob_name (fst (list_blobs_of blobs pfx true)))).
    { apply List.in_map. cbn [list_blobs_of fst]. apply List.filter_In. split.
      - apply List.filter_In. split; [exact Hb |]. rewrite Hn.
        apply starts_with_app.
      - unfold blob_group. rewrite Hn, strip_prefix_app.
        now rewrite (proj2 (group_prefix_None pfx rel) Hseg). }
    destruct (for_loop_Ok_step _ _
                (fun x => polite_downloadBucketFile bucketName x
                            (os_path_join L (last_segment x)))
                _ _ _ Hloop _ Hin)
      as (wa & wb & ub & _ & Hr1 & Pb).
    apply downloadBucketFile_Ok_file in Hr1 as [Hfile _].
    rewrite Hn, (last_segment_under pfx _ Hpe Hseg) in Hfile.
    unfold local_path. rewrite (local_path_from_no_slash _ _ _ Hseg).
    cbn [String.append].
    apply (polite_step_isfile _ _ _ P1), (polite_step_isfile _ _ _ P5).
    now apply (polite_step_isfile _ _ _ Pb).
  - (* an object below a directory of this level *)
    cbn in Hr. apply not_slash_false in Hr; subst c.
    assert (Hne : seg <> "").
    { intros ->. rewrite forallb_forall in Hnd. specialize (Hnd b Hb).
      rewrite Hn, Hrel in Hnd. cbn [String.append] in Hnd.
      now rewrite (has_double_slash_app pfx rest Hpe) in Hnd. }
    assert (Hin : In (pfx +:+ seg)
                    (List.map drop_last (snd (list_blobs_of blobs pfx true)))).
    { apply List.in_map_iff. exists (pfx +:+ seg +:+ "/"). split.
      - now rewrite <- app_assoc_str, drop_last_app_slash.
      - cbn [list_blobs_of snd].
        apply list_elem_of_In, elem_of_remove_dups, list_elem_of_omap.
        exists b. split.
        + apply list_elem_of_In, List.filter_In. split; [exact Hb |].
          rewrite Hn. apply starts_with_app.
        + unfold blob_group. rewrite Hn, strip_prefix_app.
          apply group_prefix_Some. now exists seg, rest. }
    destruct (for_each_Ok_step _ _
                (fun x wa r wb => Hrec x wa r wb) _ _ _ H _ Hin)
      as (wa & wb & ub & Pa & Hr1 & Pb).
    assert (Hws : with_slash (pfx +:+ seg) = (pfx +:+ seg) +:+ "/").
    { unfold with_slash. rewrite ends_with_slash_app by exact Hne.
      now rewrite (no_slash_not_ends _ Hseg). }
    assert (Hbka : find_bucket bucketName (gcs wa) = Some blobs).
    { destruct Pa as (_ & Ga & _). destruct P5 as (_ & G5 & _).
      destruct (polite_for_loop _ _
                  (fun x => polite_downloadBucketFile bucketName x
                              (os_path_join L (last_segment x)))
                  _ _ _ Hloop) as (_ & Gl & _).
      destruct P4 as (_ & G4 & _). congruence. }
    assert (Hn' : blob_name b = with_slash (pfx +:+ seg) +:+ rest).
    { rewrite Hws, Hn, Hrel, !app_assoc_str. reflexivity. }
    pose proof (IH _ _ _ _ _ Hr1 Hbka Hnd b rest Hb Hn') as Hfile.
    rewrite (last_segment_under pfx _ Hpe Hseg) in Hfile.
    unfold local_path. rewrite Hrel, (local_path_from_seg _ _ _ _ Hseg).
    cbn [String.append].
    now apply (polite_step_isfile _ _ _ Pb).
Qed.

(** X16: the mirror is complete.  When [downloadBucketDir] returns
    normally for a bucket whose names have no doubled slash, every object
    under [dirID/] has a local file at the mirrored path: the segments of
    its name below [dirID/], joined to the local directory. *)
Theorem downloadBucketDir_complete {S} (fuel : nat)
    (bucketName dirID localDirPath : string) (w w' : World S) (u : unit)
    (blobs : list Blob) :
  downloadBucketDir fuel bucketName dirID localDirPath w = Some (Ok u, w') ->
  find_bucket bucketName (gcs w) = Some blobs ->
  forallb (fun b => negb (has_double_slash (blob_name b))) blobs = true ->
  forall b rel,
    In b blobs -> blob_name b = with_slash dirID +:+ rel ->
    path_isfile (fs w') (local_path localDirPath rel) = true.
Proof.
  exact (downloadBucketDir_every_object fuel bucketName dirID localDirPath w w' u
           blobs).
Qed.

Lemma downloadBucketDir_complete_witness :
  let w : World unit := mkWorld tt (tree_bucket "one" "two") ∅ [] in
  let w' : World unit :=
    mkWorld tt (tree_bucket "one" "two")
      {[ "L" := Dir; "L/f1" := File "one"; "L/b" := Dir; "L/b/f2" := File "two" ]}
      [EvListBlobs "bkt" "a/" "/"; EvBlobDownload "bkt" "a/f1" "L/f1";
       EvListBlobs "bkt" "a/" "/"; EvListBlobs "bkt" "a/b/" "/";
       EvBlobDownload "bkt" "a/b/f2" "L/b/f2"; EvListBlobs "bkt" "a/b/" "/"] in
  path_isfile (fs w') (local_path "L" "b/f2") = true.
Proof.
  intros w w'.
  apply (downloadBucketDir_complete 3 "bkt" "a" "L" w w' tt
           [mkBlob "a/f1" "one"; mkBlob "a/b/f2" "two"]
           ltac:(vm_compute; reflexivity) eq_refl eq_refl
           (mkBlob "a/b/f2" "two") "b/f2").
  - right. now left.
  - reflexivity.
Defined.

(** ** Small helpers: dates, tokens, settings *)

(** X17: [dateSubDir] appends the date as a last path segment, with one
    slash between: for a non-empty parent the result is the parent, a slash
    unless the parent ends in one, and the date; with or without a trailing
    slash on the parent the result is the same; the empty parent raises
    [IndexError]. *)
Theorem dateSubDir_appends {S} (today parentPath : string) (w : World S) :
  dateSubDir today "" w = (Raise (IndexError "string index out of range"), w) /\
  (parentPath <> "" ->
   dateSubDir today parentPath w = (Ok (with_slash parentPath +:+ today), w) /\
   (ends_with_slash parentPath = false ->
    dateSubDir today (parentPath +:+ "/") w = dateSubDir today parentPath w) /\
   (str_forallb not_slash today = true ->
    last_segment (with_slash parentPath +:+ today) = today)).
Proof.
  split; [reflexivity |]. intros Hp.
  assert (H1 : forall p, p <> "" ->
            dateSubDir today p w = (Ok (with_slash p +:+ today), w)).
  { intros p Hpp. unfold dateSubDir, with_slash, ends_with_slash.
    destruct (str_last p) as [c|] eqn:E.
    - destruct (Ascii.eqb c slash); [reflexivity |].
      unfold ret. now rewrite app_assoc_str.
    - apply str_last_None in E. congruence. }
  split; [now apply H1 |]. split.
  - intros Hs. rewrite !H1; auto; [| now apply app_not_empty_l].
    unfold with_slash at 1.
    rewrite ends_with_slash_app by discriminate. cbn.
    unfold with_slash. now rewrite Hs.
  - intros Ht. apply last_segment_under; [apply with_slash_ends | exact Ht].
Qed.

Lemma dateSubDir_appends_witness :
  let w := example_world (mkScript [] [] []) in
  dateSubDir "2020-05-01" "gs://bkt/out" w
    = (Ok (with_slash "gs://bkt/out" +:+ "2020-05-01"), w) /\
  (ends_with_slash "gs://bkt/out" = false ->
   dateSubDir "2020-05-01" ("gs://bkt/out" +:+ "/") w
     = dateSubDir "2020-05-01" "gs://bkt/out" w) /\
  (str_forallb not_slash "2020-05-01" = true ->
   last_segment (with_slash "gs://bkt/out" +:+ "2020-05-01") = "2020-05-01").
Proof.
  intros w.
  apply (proj2 (dateSubDir_appends "2020-05-01" "gs://bkt/out" w)).
  discriminate.
Defined.

Lemma getServiceIdToken_keeps {T}
    (fetch_id_token : string -> T -> Result string * T) (a b token : string)
    (c : TokenCache T) :
  cached c !! a = Some token ->
  cached (snd (getServiceIdToken fetch_id_token b c)) !! a = Some token.
Proof.
  intros H. unfold getServiceIdToken.
  destruct (cached c !! b) as [tb|] eqn:Eb; [exact H |].
  destruct (fetch_id_token b (idp c)) as [[tok|e] t']; cbn; [| exact H].
  rewrite lookup_insert_ne; [exact H |]. congruence.
Qed.

Lemma after_calls_keeps {T}
    (fetch_id_token : string -> T -> Result string * T) (a token : string)
    (l : list string) (c : TokenCache T) :
  cached c !! a = Some token ->
  cached (after_calls fetch_id_token l c) !! a = Some token.
Proof.
  revert c. induction l as [|b l IH]; intros c H; [exact H |].
  cbn. apply IH. now apply getServiceIdToken_keeps.
Qed.

(** X18: [getServiceIdToken] fetches a token once for an audience: after
    a call that returned a token, every later call for the same audience,
    whatever calls were made in between, returns the same token without
    asking the identity provider; a fetch that raises caches nothing. *)
Theorem getServiceIdToken_memoizes {T}
    (fetch_id_token : string -> T -> Result string * T) (audience : string)
    (c : TokenCache T) :
  (forall token c1,
     getServiceIdToken fetch_id_token audience c = (Ok token, c1) ->
     forall l,
       getServiceIdToken fetch_id_token audience
         (after_calls fetch_id_token l c1)
       = (Ok token, after_calls fetch_id_token l c1)) /\
  (forall e c1,
     getServiceIdToken fetch_id_token audience c = (Raise e, c1) ->
     cached c1 = cached c).
Proof.
  split.
  - intros token c1 H l.
    assert (Hc : cached c1 !! audience = Some token).
    { unfold getServiceIdToken in H.
      destruct (cached c !! audience) as [tk|] eqn:E.
      - now inversion H; subst.
      - destruct (fetch_id_token audience (idp c)) as [[tok|e] t'];
          inversion H; subst. cbn. apply lookup_insert_eq. }
    unfold getServiceIdToken at 1.
    now rewrite (after_calls_keeps _ _ _ l _ Hc).
  - intros e c1 H. unfold getServiceIdToken in H.
    destruct (cached c !! audience); [discriminate H |].
    destruct (fetch_id_token audience (idp c)) as [[tok|e'] t'];
      inversion H; subst; reflexivity.
Qed.

Lemma getServiceIdToken_memoizes_witness :
  let fetch := fun (a : string) (n : nat) =>
                 (Ok (a +:+ "-token"), Datatypes.S n) : Result string * nat in
  let c1 := mkTokenCache ({[ "https://f" := "https://f-token" ]} : gmap string string)
              1%nat in
  getServiceIdToken fetch "https://f"
    (after_calls fetch ["https://g"; "https://f"] c1)
  = (Ok "https://f-token", after_calls fetch ["https://g"; "https://f"] c1).
Proof.
  intros fetch c1.
  apply (proj1 (getServiceIdToken_memoizes fetch "https://f" (mkTokenCache ∅ 0%nat))
           "https://f-token" c1).
  vm_compute. reflexivity.
Defined.

(** X19: the settings cannot live in a bucket: when [OCT_FIRE_SETTINGS]
    holds a path that [parseGCSPath] accepts, [readSettingsFile] raises
    ['GCS config not supported yet'] without reading anything; when the
    variable is missing it raises [KeyError]; for any other path it
    returns what [json.loads] makes of the text of that local file. *)
Theorem readSettingsFile_local_only {S J} (environ : gmap string string)
    (json_loads : string -> Result J) (w : World S) :
  (environ !! "OCT_FIRE_SETTINGS" = None ->
   readSettingsFile environ json_loads w = (Raise (KeyError "OCT_FIRE_SETTINGS"), w)) /\
  (forall configPath r,
     environ !! "OCT_FIRE_SETTINGS" = Some configPath ->
     parseGCSPath configPath = Some r ->
     readSettingsFile environ json_loads w
       = (Raise (Exception_ "GCS config not supported yet"), w)) /\
  (forall configPath text,
     environ !! "OCT_FIRE_SETTINGS" = Some configPath ->
     parseGCSPath configPath = None ->
     read_file configPath w = (Ok text, w) ->
     readSettingsFile environ json_loads w = (json_loads text, w)).
Proof.
  unfold readSettingsFile, dict_get. split; [| split].
  - intros ->. reflexivity.
  - intros configPath r -> Hp. unfold bind, ret. now rewrite Hp.
  - intros configPath text -> Hp Hr. unfold bind at 1. unfold ret at 1.
    rewrite Hp. unfold bind. rewrite Hr. now destruct (json_loads text).
Qed.

Lemma readSettingsFile_local_only_witness :
  let w := example_world (mkScript [] [] []) in
  readSettingsFile ({[ "OCT_FIRE_SETTINGS" := "gs://bkt/settings.json" ]})
    (fun text => Ok (String.length text)) w
    = (Raise (Exception_ "GCS config not supported yet"), w) /\
  readSettingsFile ({[ "OCT_FIRE_SETTINGS" := "img/cam1.jpg" ]})
    (fun text => Ok (String.length text)) w
    = (Ok 4%nat, w).
Proof.
  intros w. split.
  - apply (proj1 (proj2 (readSettingsFile_local_only
                           ({[ "OCT_FIRE_SETTINGS" := "gs://bkt/settings.json" ]})
                           (fun text => Ok (String.length text)) w))
             "gs://bkt/settings.json" (mkGCSPath "bkt" "settings.json")).
    + vm_compute. reflexivity.
    + reflexivity.
  - apply (proj2 (proj2 (readSettingsFile_local_only
                           ({[ "OCT_FIRE_SETTINGS" := "img/cam1.jpg" ]})
                           (fun text => Ok (String.length text)) w))
             "img/cam1.jpg" "jpeg").
    + vm_compute. reflexivity.
    + reflexivity.
    + vm_compute. reflexivity.
Defined.

(** ** UnifiedIO: copy to a bucket and read back *)









(** [copyFile] takes local sources only: when the source path is one
    that [parseGCSPath] accepts, the assertion fails before anything is
    read, written or uploaded. *)
Theorem copyFile_source_is_local {S} (srcFilePath destDir : string) (r : GCSPath)
    (w : World S) :
  parseGCSPath srcFilePath = Some r ->
  copyFile srcFilePath destDir w = (Raise AssertionError, w).
Proof.
  intros H. unfold copyFile. now rewrite H.
Qed.

(** ** Failure modes of the search *)

(** X21: how [searchFiles] reports a listing that gave up depends on the
    paging: called with a page token (['init'] included) it returns the
    [None] of the paged query; called without one it raises the
    [TypeError] of [driveListFilesQuery]. *)
Theorem searchFiles_failure_modes {S} (service : DriveService S)
    (parentID : string) (minTime maxTime pfx npt : option string)
    (w : World S) (d' : S) :
  all_fail
    (files_list service
       (list_param parentID (Some (search_query minTime maxTime pfx))
          (if opt_truthy npt then sent_token npt else None)))
    5 (drive w) = Some d' ->
  exists w',
    drive w' = d' /\
    searchFiles service parentID minTime maxTime pfx npt w =
      (if opt_truthy npt then Ok (Paged None) else Raise unpack_None, w').
Proof.
  intros H.
  destruct (driveListFilesQueryWithNextToken_gives_up service parentID
              (Some (search_query minTime maxTime pfx))
              (if opt_truthy npt then sent_token npt else None) w d' H)
    as (evs & Hr & _).
  eexists. split; [| unfold searchFiles; fold (search_query minTime maxTime pfx)].
  2: { destruct (opt_truthy npt).
       - fold (sent_token npt). unfold bind. rewrite Hr. reflexivity.
       - unfold driveListFilesQuery, bind. rewrite Hr. reflexivity. }
  reflexivity.
Qed.

Lemma searchFiles_failure_modes_witness :
  let w := example_world (mkScript [] [] []) in
  (exists w',
     drive w' = mkScript [] [] [] /\
     searchFiles scripted "folder" None None None (Some "init") w
       = (Ok (Paged None), w')) /\
  (exists w',
     drive w' = mkScript [] [] [] /\
     searchFiles scripted "folder" None None None None w
       = (Raise unpack_None, w')).
Proof.
  intros w. split.
  - apply (searchFiles_failure_modes scripted "folder" None None None
             (Some "init") w (mkScript [] [] [])).
    reflexivity.
  - apply (searchFiles_failure_modes scripted "folder" None None None None w
             (mkScript [] [] [])).
    reflexivity.
Defined.

(** ** RetryGate: any attempt *)

(** X22: [createFolder] and [uploadFile] return at the first attempt that
    answers: after [k] failed attempts, for any [k] below five, an answer
    ends the call with [k + 1] remote calls and [k] sleeps of five seconds;
    and an exception that [except Exception] does not catch ends the call
    at once instead of being retried. *)
Theorem retry_returns_at_first_answer {S} (service : DriveService S)
    (parentDirID folderName dirID localFilePath : string) (w : World S)
    (k : nat) (dk d' : S) :
  (k < 5)%nat ->
  (forall folder,
     all_fail (createFolder_request service parentDirID folderName) k (drive w)
       = Some dk ->
     createFolder_request service parentDirID folderName dk = (Ok folder, d') ->
     exists evs,
       createFolder service parentDirID folderName w =
         (Ok (Some (fr_id folder)),
          mkWorld d' (gcs w) (fs w) (trace w ++ evs)) /\
       invocations evs = Datatypes.S k /\ sleeps evs = repeat retry_delay k) /\
  (forall file,
     path_isfile (fs w) localFilePath = true ->
     all_fail (uploadFile_request service dirID localFilePath) k (drive w)
       = Some dk ->
     uploadFile_request service dirID localFilePath dk = (Ok file, d') ->
     exists evs,
       uploadFile service dirID localFilePath w =
         (Ok (Some file), mkWorld d' (gcs w) (fs w) (trace w ++ evs)) /\
       invocations evs = Datatypes.S k /\ sleeps evs = repeat retry_delay k) /\
  (forall e,
     createFolder_request service parentDirID folderName (drive w) = (Raise e, d') ->
     is_Exception e = false ->
     exists call,
       createFolder service parentDirID folderName w =
         (Raise e, mkWorld d' (gcs w) (fs w) (trace w ++ [call])) /\
       is_remote_call call = true).
Proof.
  intros Hk. split; [| split].
  - intros folder H Hok. unfold createFolder.
    rewrite createFolder_loop_RetryGate.
    match goal with |- context [RetryGate ?ev _ ?ok ?wa ?er 5 w] =>
      destruct (RetryGate_success_after ev
                  (createFolder_request service parentDirID folderName)
                  ok wa er eq_refl k 5%nat w dk d' folder H Hok Hk)
        as (evs & Hr & Hi & Hs) end.
    eexists. split; [exact Hr |]. now split.
  - intros file Hf H Hok. rewrite (uploadFile_unfold _ _ _ _ Hf).
    match goal with |- context [RetryGate ?ev _ ?ok ?wa ?er 5 w] =>
      destruct (RetryGate_success_after ev
                  (uploadFile_request service dirID localFilePath)
                  ok wa er eq_refl k 5%nat w dk d' file H Hok Hk)
        as (evs & Hr & Hi & Hs) end.
    eexists. split; [exact Hr |]. now split.
  - intros e Hr He.
    exists (EvFilesCreate
              {| md_name := folderName;
                 md_mimeType := Some "application/vnd.google-apps.folder";
                 md_parents := [parentDirID] |} None).
    split; [| reflexivity].
    unfold createFolder. cbn [createFolder_loop].
    unfold try_except, bind, files_create_execute, drive_call.
    unfold createFolder_request in Hr. now rewrite Hr, He.
Qed.

Lemma retry_returns_at_first_answer_witness :
  let s := mkScript [] [Raise (RemoteError "500"); Ok (mkFileResource "id-7")] [] in
  exists evs,
    createFolder scripted "root" "cam1" (example_world s) =
      (Ok (Some "id-7"),
       mkWorld (mkScript [] [] []) [] (fs (example_world s)) ([] ++ evs)) /\
    invocations evs = 2%nat /\ sleeps evs = repeat retry_delay 1.
Proof.
  intros s.
  apply (proj1 (retry_returns_at_first_answer scripted "root" "cam1" "dir"
                  "img/cam1.jpg" (example_world s) 1
                  (mkScript [] [Ok (mkFileResource "id-7")] []) (mkScript [] [] [])
                  ltac:(lia))
           (mkFileResource "id-7")); reflexivity.
Defined.

Example copyFile_local_creates_directories :
  let w : World unit :=
    mkWorld tt [] {[ "img" := Dir; "img/x.jpg" := File "jpeg" ]} [] in
  let r := copyFile "img/x.jpg" "backup/2020" w in
  fst r = Ok "backup/2020/x.jpg" /\
  fs (snd r) !! "backup" = Some Dir /\
  fs (snd r) !! "backup/2020" = Some Dir /\
  fs (snd r) !! "backup/2020/x.jpg" = Some (File "jpeg").
Proof. vm_compute. repeat split. Qed.

Example copyFile_onto_itself :
  let w : World unit :=
    mkWorld tt [] {[ "img" := Dir; "img/x.jpg" := File "jpeg" ]} [] in
  copyFile "img/x.jpg" "img" w = (Raise (OSError "SameFileError"), w).
Proof. vm_compute. reflexivity. Qed.

Example copyFile_bucket_root :
  let w : World unit :=
    mkWorld tt [("bkt", [])] {[ "img" := Dir; "img/x.jpg" := File "jpeg" ]} [] in
  copyFile "img/x.jpg" "gs://bkt//" w
    = (Raise (IndexError "string index out of range"), w).
Proof. vm_compute. reflexivity. Qed.

(** ** TreeSync: the mirror of a remote tree *)



